(** * lookup-vibe: the tolerant CSV parser and the display formatters

    A shallow embedding of [parseCSV], [formatDate] and [formatPeso] from
    [src/index.tsx], with the properties of the design document proved
    about it.

    A JavaScript string is a sequence of UTF-16 code units; it is modelled
    as a list of code units, each an [N].  An array is a list; reading an
    index out of range gives [undefined], modelled by [None] of
    [nth_error].  Calling a method on [undefined] raises a TypeError,
    modelled by [None] in the result of [parseCSV]. *)

From Stdlib Require Import NArith ZArith List Bool Ascii String Lia.
Import ListNotations.

Local Open Scope N_scope.

(** ** Strings *)

Definition char := N.
Definition jstring := list char.

(** An ASCII literal as a JavaScript string. *)
Definition js (s : string) : jstring := map N_of_ascii (list_ascii_of_string s).

Definition QUOTE : char := 34.
Definition COMMA : char := 44.
Definition LF : char := 10.
Definition CR : char := 13.
Definition BOM : char := 65279.
Definition PESO : char := 8369.

Definition jstring_eqb (a b : jstring) : bool :=
  if list_eq_dec N.eq_dec a b then true else false.

Definition isDigit (c : char) : bool := (48 <=? c) && (c <=? 57).
Definition isLower (c : char) : bool := (97 <=? c) && (c <=? 122).
Definition isUpper (c : char) : bool := (65 <=? c) && (c <=? 90).

(** The code units that [String.prototype.trim] removes: WhiteSpace (TAB,
    VT, FF, ZWNBSP and the space separators of Unicode) and LineTerminator
    (LF, CR, LS, PS). *)
Definition isWhiteSpace (c : char) : bool :=
  existsb (N.eqb c)
    [9; 10; 11; 12; 13; 32; 160; 5760; 8232; 8233; 8239; 8287; 12288; 65279]
  || ((8192 <=? c) && (c <=? 8202)).

Fixpoint trimStart (s : jstring) : jstring :=
  match s with
  | c :: s' => if isWhiteSpace c then trimStart s' else s
  | [] => []
  end.

Definition trimEnd (s : jstring) : jstring := rev (trimStart (rev s)).

Definition trim (s : jstring) : jstring := trimEnd (trimStart s).

(** [s.replace(/[^0-9]/g, '')] *)
Definition digitsOnly (s : jstring) : jstring := filter isDigit s.

(** [s.replace(/[^a-z0-9]/g, '')] *)
Definition stripNonAlnum (s : jstring) : jstring :=
  filter (fun c => isLower c || isDigit c) s.

(** [s.toLowerCase()], one code unit at a time.  The capital letters of
    ASCII, U+0130 (whose lower case is [i] followed by U+0307) and U+212A
    (the Kelvin sign, whose lower case is [k]) are the only code points
    whose lower-case image has a code unit in [a-z0-9]; every other code
    unit is left as it is here, and its image is outside [a-z0-9] in
    JavaScript too, so that [toLowerCase] followed by [stripNonAlnum] is
    exact. *)
Definition lowerUnit (c : char) : jstring :=
  if isUpper c then [c + 32]
  else if c =? 304 then [105; 775]
  else if c =? 8490 then [107]
  else [c].

Definition toLowerCase (s : jstring) : jstring := flat_map lowerUnit s.

(** [c.toLowerCase().replace(/[^a-z0-9]/g, '')] *)
Definition normalize (s : jstring) : jstring := stripNonAlnum (toLowerCase s).

Fixpoint startsWith (s k : jstring) {struct k} : bool :=
  match k, s with
  | [], _ => true
  | _ :: _, [] => false
  | a :: k', b :: s' => (a =? b) && startsWith s' k'
  end.

(** [s.includes(k)] *)
Fixpoint includes (s k : jstring) : bool :=
  startsWith s k ||
  match s with
  | [] => false
  | _ :: s' => includes s' k
  end.

(** [a || d] for a string or [undefined] on the left: the empty string and
    [undefined] are falsy. *)
Definition orElse (a : option jstring) (d : jstring) : jstring :=
  match a with
  | Some (c :: s) => c :: s
  | _ => d
  end.

(** ** Row tokenizer *)

Record SplitState := {
  result : list jstring;
  cell : jstring;
  inQuotes : bool
}.

(** The last three branches of the loop body of [splitRow]. *)
Definition scanChar (c : char) (st : SplitState) : SplitState :=
  if c =? QUOTE then
    {| result := result st; cell := cell st; inQuotes := negb (inQuotes st) |}
  else if (c =? COMMA) && negb (inQuotes st) then
    {| result := result st ++ [trim (cell st)]; cell := [];
       inQuotes := inQuotes st |}
  else
    {| result := result st; cell := cell st ++ [c]; inQuotes := inQuotes st |}.

(** The first branch: a doubled quote inside quotes puts one quote in the
    cell, and the loop skips the second one. *)
Definition escapedQuote (st : SplitState) : SplitState :=
  {| result := result st; cell := cell st ++ [QUOTE]; inQuotes := inQuotes st |}.

Fixpoint splitRowFrom (row : jstring) (st : SplitState) : SplitState :=
  match row with
  | [] => st
  | c :: rest =>
      match rest with
      | d :: rest' =>
          if (c =? QUOTE) && (d =? QUOTE) && inQuotes st
          then splitRowFrom rest' (escapedQuote st)
          else splitRowFrom rest (scanChar c st)
      | [] => splitRowFrom rest (scanChar c st)
      end
  end.

Definition splitRow (row : jstring) : list jstring :=
  let st := splitRowFrom row {| result := []; cell := []; inQuotes := false |} in
  result st ++ [trim (cell st)].

(** ** Lines *)

(** [text.replace(/^\uFEFF/, '')] *)
Definition stripBOM (text : jstring) : jstring :=
  match text with
  | c :: rest => if c =? BOM then rest else text
  | [] => []
  end.

(** [text.split(/\r?\n/)]: [cur] is the part of the current piece already
    passed.  A CR directly before a LF belongs to the separator. *)
Fixpoint splitLinesFrom (text : jstring) (cur : jstring) : list jstring :=
  match text with
  | [] => [cur]
  | c :: rest =>
      if c =? LF then cur :: splitLinesFrom rest []
      else
        match rest with
        | d :: rest' =>
            if (c =? CR) && (d =? LF) then cur :: splitLinesFrom rest' []
            else splitLinesFrom rest (cur ++ [c])
        | [] => splitLinesFrom rest (cur ++ [c])
        end
  end.

Definition splitLines (text : jstring) : list jstring := splitLinesFrom text [].

(** [cleanText.split(/\r?\n/).filter(line => line.trim().length > 0)] *)
Definition nonEmptyLines (text : jstring) : list jstring :=
  filter (fun line => (0 <? List.length (trim line))%nat) (splitLines (stripBOM text)).

(** ** Records *)

Record Member := {
  accountName : jstring;
  accountNumber : jstring;
  nextDueDate : jstring;
  nextDueAmount : jstring;
  bps : jstring;
  overdueAmount : jstring
}.

Record ParseResult := {
  members : list Member;
  sheetUpdateDate : jstring
}.

Inductive Field :=
  AccountName | AccountNumber | NextDueDate | NextDueAmount | Bps | OverdueAmount.

Definition allFields : list Field :=
  [AccountName; AccountNumber; NextDueDate; NextDueAmount; Bps; OverdueAmount].

Definition field (f : Field) (m : Member) : jstring :=
  match f with
  | AccountName => accountName m
  | AccountNumber => accountNumber m
  | NextDueDate => nextDueDate m
  | NextDueAmount => nextDueAmount m
  | Bps => bps m
  | OverdueAmount => overdueAmount m
  end.

(** The right-hand side of [||] in each field of a record. *)
Definition fieldDefault (f : Field) : jstring :=
  match f with
  | AccountName | AccountNumber | NextDueDate => js "N/A"
  | NextDueAmount | Bps | OverdueAmount => js "0.00"
  end.

(** ** Keywords *)

Definition keywords (f : Field) : list jstring :=
  match f with
  | AccountName =>
      map js ["accountname"; "membername"; "customername"; "name"; "client";
              "fullname"; "member"; "subscriber"]%string
  | AccountNumber =>
      map js ["accountnumber"; "accountno"; "accnum"; "id"; "memberid"; "acc#";
              "account#"; "member#"; "ref"]%string
  | NextDueDate =>
      map js ["nextduedate"; "duedate"; "nextdue"; "billingdate"; "expiry";
              "due"]%string
  | NextDueAmount =>
      map js ["nextdueamount"; "dueamount"; "amountdue"; "balance"; "totaldue";
              "payable"]%string
  | Bps =>
      map js ["bps"; "brochuresales"; "sales"; "salesvolume"; "volume";
              "commission"]%string
  | OverdueAmount =>
      map js ["overdueamount"; "overdue"; "pastdue"; "arrears"; "delinquent";
              "latefee"]%string
  end.

(** [Object.values(keywords).flat()] *)
Definition allKeywords : list jstring := flat_map keywords allFields.

(** ** Header locator *)

(** [row.some(cell => cell.includes(k.replace(/[^a-z0-9]/g, '')))] *)
Definition keywordInRow (row : list jstring) (k : jstring) : bool :=
  existsb (fun cell => includes cell (stripNonAlnum k)) row.

(** The score of one line: the body of the header loop up to the
    comparison. *)
Definition rowScore (line : jstring) : Z :=
  let row := map normalize (splitRow line) in
  Z.of_nat (List.length (filter (keywordInRow row) allKeywords)).

Record ScanState := {
  headerRowIndex : nat;
  maxScore : Z
}.

(** The header loop over the indices [idxs], for a scoring function [score];
    [parseCSV] runs it with [rowScore].  [allLines[i]] is passed to
    [splitRow], which reads its [length]: a TypeError if it is
    [undefined]. *)
Fixpoint scanHeaders (score : jstring -> Z) (allLines : list jstring)
    (idxs : list nat) (st : ScanState) : option ScanState :=
  match idxs with
  | [] => Some st
  | i :: idxs' =>
      match nth_error allLines i with
      | None => None
      | Some line =>
          scanHeaders score allLines idxs'
            (if (score line >? maxScore st)%Z
             then {| headerRowIndex := i; maxScore := score line |}
             else st)
      end
  end.

(** [for (let i = 0; i < Math.min(allLines.length, 10); i++)] from
    [headerRowIndex = 0], [maxScore = -1]. *)
Definition locateHeader (score : jstring -> Z) (allLines : list jstring)
    : option ScanState :=
  scanHeaders score allLines (seq 0 (Nat.min (List.length allLines) 10))
    {| headerRowIndex := 0; maxScore := -1 |}.

(** ** Column mapper *)

(** [a.findIndex(p)], counting from [i]. *)
Fixpoint findIndexFrom {A} (p : A -> bool) (a : list A) (i : Z) : Z :=
  match a with
  | [] => -1
  | x :: a' => if p x then i else findIndexFrom p a' (i + 1)
  end.

Definition findIndex {A} (p : A -> bool) (a : list A) : Z := findIndexFrom p a 0.

Definition exactMatch (kList : list jstring) (h : jstring) : bool :=
  existsb (fun k => jstring_eqb h (stripNonAlnum k)) kList.

Definition substringMatch (kList : list jstring) (h : jstring) : bool :=
  existsb (fun k => includes h (stripNonAlnum k)) kList.

(** The local [findIndex] of [parseCSV], over the normalized headers. *)
Definition findColumn (headers : list jstring) (kList : list jstring) : Z :=
  let exact := findIndex (exactMatch kList) headers in
  if negb (exact =? -1)%Z then exact
  else findIndex (substringMatch kList) headers.

Definition indices (headers : list jstring) (f : Field) : Z :=
  match f with
  | AccountName =>
      if negb (findColumn headers (keywords AccountName) =? -1)%Z
      then findColumn headers (keywords AccountName) else 0%Z
  | AccountNumber =>
      if negb (findColumn headers (keywords AccountNumber) =? -1)%Z
      then findColumn headers (keywords AccountNumber) else 1%Z
  | f => findColumn headers (keywords f)
  end.

(** ** Record builder *)

(** [(idx >= 0 && values[idx] !== undefined) ? values[idx] : ''] *)
Definition getVal (values : list jstring) (idx : Z) : jstring :=
  if (idx >=? 0)%Z then
    match nth_error values (Z.to_nat idx) with
    | Some v => v
    | None => []
    end
  else [].

Definition fieldValue (idx : Field -> Z) (values : list jstring) (f : Field)
    : jstring :=
  orElse (Some (getVal values (idx f))) (fieldDefault f).

Definition buildRecord (idx : Field -> Z) (line : jstring) : Member :=
  let values := splitRow line in
  {| accountName := fieldValue idx values AccountName;
     accountNumber := fieldValue idx values AccountNumber;
     nextDueDate := fieldValue idx values NextDueDate;
     nextDueAmount := fieldValue idx values NextDueAmount;
     bps := fieldValue idx values Bps;
     overdueAmount := fieldValue idx values OverdueAmount |}.

(** ** The parser *)

Definition parseCSV (text : jstring) : option ParseResult :=
  let cleanText := stripBOM text in
  let allLines :=
    filter (fun line => (0 <? List.length (trim line))%nat) (splitLines cleanText) in
  if (List.length allLines <? 1)%nat then
    Some {| members := []; sheetUpdateDate := js "N/A" |}
  else
    match nth_error allLines 0 with
    | None => None
    | Some line0 =>
        let firstRow := splitRow line0 in
        let sheetUpdateDate := orElse (nth_error firstRow 0) (js "N/A") in
        match locateHeader rowScore allLines with
        | None => None
        | Some st =>
            match nth_error allLines (headerRowIndex st) with
            | None => None
            | Some headerLine =>
                let rawHeaders := splitRow headerLine in
                let headers := map normalize rawHeaders in
                let members :=
                  map (buildRecord (indices headers))
                    (skipn (headerRowIndex st + 1) allLines) in
                Some {| members := members; sheetUpdateDate := sheetUpdateDate |}
            end
        end
    end.

(** ** Formatters *)

(** [s.substring(a, b)] for [a <= b]. *)
Definition substring (s : jstring) (a b : nat) : jstring := firstn (b - a) (skipn a s).

(** [/^\d{8}$/.test(s)] *)
Definition isEightDigits (s : jstring) : bool :=
  (List.length s =? 8)%nat && forallb isDigit s.

Definition formatDate (dateStr : jstring) : jstring :=
  if jstring_eqb dateStr [] || jstring_eqb dateStr (js "N/A")
     || jstring_eqb (trim dateStr) []
  then js "N/A"
  else
    let cleanStr := digitsOnly dateStr in
    if (List.length cleanStr =? 8)%nat && isEightDigits cleanStr then
      let y := substring cleanStr 0 4 in
      let m := substring cleanStr 4 6 in
      let d := substring cleanStr 6 8 in
      m ++ js "/" ++ d ++ js "/" ++ y
    else dateStr.

(** The decimal literal that [parseFloat] reads: the longest prefix of its
    argument, after leading white space, that is a StrDecimalLiteral of
    ECMAScript.  [parseFloat] returns the number nearest to it. *)
Inductive Literal :=
| Infinity (negative : bool)
| Decimal (negative : bool) (intDigits fracDigits : jstring)
    (exponent : option (bool * jstring)).

Fixpoint span (p : char -> bool) (s : jstring) : jstring * jstring :=
  match s with
  | c :: s' => if p c then let (a, b) := span p s' in (c :: a, b) else ([], s)
  | [] => ([], [])
  end.

(** ExponentPart, when a complete one is next. *)
Definition readExponent (s : jstring) : option (bool * jstring) :=
  match s with
  | e :: s' =>
      if (e =? 101) || (e =? 69) then
        match s' with
        | sign :: s'' =>
            if sign =? 45 then
              match fst (span isDigit s'') with [] => None | ds => Some (true, ds) end
            else if sign =? 43 then
              match fst (span isDigit s'') with [] => None | ds => Some (false, ds) end
            else
              match fst (span isDigit s') with [] => None | ds => Some (false, ds) end
        | [] => None
        end
      else None
  | [] => None
  end.

(** StrUnsignedDecimalLiteral *)
Definition readUnsigned (negative : bool) (s : jstring) : option Literal :=
  if startsWith s (js "Infinity") then Some (Infinity negative)
  else
    let (int, r) := span isDigit s in
    match int, r with
    | [], dot :: r' =>
        if dot =? 46 then
          let (frac, r'') := span isDigit r' in
          match frac with
          | [] => None
          | _ => Some (Decimal negative [] frac (readExponent r''))
          end
        else None
    | [], [] => None
    | _, dot :: r' =>
        if dot =? 46 then
          let (frac, r'') := span isDigit r' in
          Some (Decimal negative int frac (readExponent r''))
        else Some (Decimal negative int [] (readExponent r))
    | _, [] => Some (Decimal negative int [] None)
    end.

(** [parseFloat(s)]; [None] is NaN. *)
Definition parseFloat (s : jstring) : option Literal :=
  match trimStart s with
  | c :: s' =>
      if c =? 45 then readUnsigned true s'
      else if c =? 43 then readUnsigned false s'
      else readUnsigned false (c :: s')
  | [] => None
  end.

(** The characters of the class [0-9.-]. *)
Definition isNumeric (c : char) : bool := isDigit c || (c =? 46) || (c =? 45).

(** [amount.replace(/[^0-9.-]+/g, '')] *)
Definition stripNonNumeric (s : jstring) : jstring := filter isNumeric s.

(** [formatPeso] on a string, which is what its callers pass.
    [numberFormat] stands for [new Intl.NumberFormat('en-PH', ...).format]
    applied to the number that [parseFloat] returns for a literal. *)
Definition formatPeso (numberFormat : Literal -> jstring) (amount : jstring)
    : jstring :=
  match parseFloat (stripNonNumeric amount) with
  | None => PESO :: js "0.00"
  | Some val => PESO :: numberFormat val
  end.

(** ** Search *)

(** The predicate of the filter in [filteredMembers].  [lowerCase] stands
    for [String.prototype.toLowerCase] on a whole string, whose case
    table is not part of the source. *)
Definition memberMatches (lowerCase : jstring -> jstring) (query : jstring)
    (m : Member) : bool :=
  let numericQuery := digitsOnly query in
  let name := lowerCase (accountName m) in
  let num := lowerCase (accountNumber m) in
  let matchesName := includes name query in
  let matchesNumRaw := includes num query in
  let matchesNumNumeric :=
    (0 <? List.length numericQuery)%nat && includes (digitsOnly num) numericQuery in
  matchesName || matchesNumRaw || matchesNumNumeric.

(** The body of the [useMemo] that computes [filteredMembers]. *)
Definition filteredMembers (lowerCase : jstring -> jstring) (data : list Member)
    (searchQuery : jstring) : list Member :=
  let query := lowerCase (trim searchQuery) in
  match query with
  | [] => []
  | _ :: _ => firstn 50 (filter (memberMatches lowerCase query) data)
  end.

(** ** Writing CSV *)

(** [pieces] joined with [sep] between them. *)
Definition joinWith (sep : jstring) (pieces : list jstring) : jstring :=
  match pieces with
  | [] => []
  | p :: ps => p ++ flat_map (fun x => sep ++ x) ps
  end.

(** A field as a writer of CSV puts it in quotes: every quote doubled. *)
Definition escapeQuotes (f : jstring) : jstring :=
  flat_map (fun c => if c =? QUOTE then [QUOTE; QUOTE] else [c]) f.

Definition hasSpecial (f : jstring) : bool :=
  existsb (fun c => (c =? QUOTE) || (c =? COMMA)) f.

(** A field is written in quotes when it has a comma or a quote. *)
Definition csvField (f : jstring) : jstring :=
  if hasSpecial f then QUOTE :: escapeQuotes f ++ [QUOTE] else f.

Definition csvRow (fields : list jstring) : jstring :=
  joinWith [COMMA] (map csvField fields).

(** A record matches a query: the name or the number, in lower case,
    contains the query, or the query has digits and the digits of the
    number contain the digits of the query. *)
Definition MatchesQuery (lowerCase : jstring -> jstring) (query : jstring)
    (m : Member) : Prop :=
  (exists pre post, lowerCase (accountName m) = pre ++ query ++ post) \/
  (exists pre post, lowerCase (accountNumber m) = pre ++ query ++ post) \/
  (digitsOnly query <> [] /\
   exists pre post,
     digitsOnly (lowerCase (accountNumber m)) = pre ++ digitsOnly query ++ post).

(** The sign of a literal as [parseFloat] reads it. *)
Definition signOf (negative : bool) : jstring := if negative then [45] else [].

(** What is left of a string of digits, [.] and [-] starts with [.]
    or [-], or is empty. *)
Definition endsNumber (rest : jstring) : bool :=
  match rest with
  | [] => true
  | c :: _ => (c =? 45) || (c =? 46)
  end.

(** The number of commas of a row. *)
Definition commas (row : jstring) : nat :=
  List.length (filter (N.eqb COMMA) row).

(** A line that [nonEmptyLines] drops. *)
Definition isBlank (line : jstring) : bool := forallb isWhiteSpace line.

Definition endsWithCR (line : jstring) : bool := last line 0 =? CR.

Definition hasLF (line : jstring) : bool := existsb (N.eqb LF) line.

(** A line as a writer of text lines can write it: no LF in it, and no
    CR at its end, which would be read with the line end. *)
Definition isLine (line : jstring) : bool :=
  negb (hasLF line) && negb (endsWithCR line).

(** ** Sample input *)

(** Joins lines with LF. *)
Definition joinLines (ls : list jstring) : jstring :=
  match ls with
  | [] => []
  | l :: ls' => l ++ flat_map (fun x => LF :: x) ls'
  end.

Definition sampleText : jstring :=
  joinLines (map js ["2024-05-01 Export";
                     "Member Name,Account No,Due Date,Due Amount";
                     "Jane Doe,1001,20240615,150.00"]%string).

Definition janeDoe : Member :=
  {| accountName := js "Jane Doe";
     accountNumber := js "1001";
     nextDueDate := js "20240615";
     nextDueAmount := js "150.00";
     bps := js "0.00";
     overdueAmount := js "0.00" |}.

Definition sampleHeaders : list jstring :=
  [js "Member Name"; js "Account No"; js "Due Date"; js "Due Amount"].

(** The same text with a byte-order mark and CR LF line ends. *)
Definition sampleTextCRLF : jstring :=
  BOM :: flat_map (fun l => js l ++ [CR; LF])
           ["2024-05-01 Export";
            "Member Name,Account No,Due Date,Due Amount";
            "Jane Doe,1001,20240615,150.00"]%string.

(** ** The words of the design document *)

(** A string begins with a digit or with [.] and a digit. *)
Definition beginsUnsigned (t : jstring) : bool :=
  match t with
  | c :: t' =>
      isDigit c ||
      ((c =? 46) && match t' with d :: _ => isDigit d | [] => false end)
  | [] => false
  end.

(** The same after an optional [-]: the strings of digits, [.] and [-]
    from which [parseFloat] reads a number. *)
Definition beginsNumber (t : jstring) : bool :=
  match t with
  | c :: t' => if c =? 45 then beginsUnsigned t' else beginsUnsigned t
  | [] => false
  end.

(** The keyword [k] has a normalized substring match in a normalized cell
    of the tokenized [line]. *)
Definition matchesKeyword (line k : jstring) : Prop :=
  exists cell pre post,
    In cell (splitRow line) /\ normalize cell = pre ++ normalize k ++ post.

(** The normalization of header cell [i] equals a normalized keyword of
    field [f]. *)
Definition exactAt (f : Field) (rawHeaders : list jstring) (i : nat) : Prop :=
  exists cell k,
    nth_error rawHeaders i = Some cell /\ In k (keywords f) /\
    normalize cell = normalize k.

(** The normalization of header cell [i] contains a normalized keyword of
    field [f]. *)
Definition substringAt (f : Field) (rawHeaders : list jstring) (i : nat) : Prop :=
  exists cell k pre post,
    nth_error rawHeaders i = Some cell /\ In k (keywords f) /\
    normalize cell = pre ++ normalize k ++ post.

(** The column of a field with no keyword match. *)
Definition positionalDefault (f : Field) : Z :=
  match f with
  | AccountName => 0
  | AccountNumber => 1
  | _ => -1
  end.

Fixpoint nodupb (l : list jstring) : bool :=
  match l with
  | [] => true
  | x :: l' => negb (existsb (jstring_eqb x) l') && nodupb l'
  end.

(** * Properties *)

(** ** Strings *)

Lemma jstring_eqb_eq (a b : jstring) : jstring_eqb a b = true <-> a = b.
Proof.
  unfold jstring_eqb. destruct (list_eq_dec N.eq_dec a b); split; congruence.
Qed.

Lemma jstring_eqb_neq (a b : jstring) : a <> b -> jstring_eqb a b = false.
Proof.
  intros H. destruct (jstring_eqb a b) eqn:E; [|reflexivity].
  now apply jstring_eqb_eq in E.
Qed.

Lemma startsWith_app (s k : jstring) :
  startsWith s k = true <-> exists post, s = k ++ post.
Proof.
  revert s. induction k as [|a k IH]; intros s; simpl.
  - split; [intros _; now exists s | reflexivity].
  - destruct s as [|b s].
    + split; [discriminate | intros [post H]; discriminate].
    + rewrite andb_true_iff, N.eqb_eq, IH. split.
      * intros [-> [post ->]]. now exists post.
      * intros [post H]. injection H as -> ->. eauto.
Qed.

(** [includes] is the substring test. *)
Lemma includes_substring (s k : jstring) :
  includes s k = true <-> exists pre post, s = pre ++ k ++ post.
Proof.
  induction s as [|c s IH]; simpl.
  - rewrite orb_false_r, startsWith_app. split.
    + intros [post H]. now exists [], post.
    + intros [pre [post H]]. destruct pre; [|discriminate]. now exists post.
  - rewrite orb_true_iff, startsWith_app, IH. split.
    + intros [[post H] | [pre [post H]]].
      * now exists [], post.
      * exists (c :: pre), post. simpl. now rewrite H.
    + intros [[|c' pre] [post H]].
      * left. now exists post.
      * right. injection H as _ H. now exists pre, post.
Qed.

Lemma trimStart_nil (s : jstring) :
  trimStart s = [] <-> forallb isWhiteSpace s = true.
Proof.
  induction s as [|c s IH]; simpl.
  - tauto.
  - destruct (isWhiteSpace c); simpl; [exact IH|]. split; discriminate.
Qed.

(** A string trims to the empty string exactly when all of it is white
    space. *)
Lemma trimStart_head (s : jstring) (c : char) (t : jstring) :
  trimStart s = c :: t -> isWhiteSpace c = false.
Proof.
  induction s as [|d s IH]; simpl.
  - discriminate.
  - destruct (isWhiteSpace d) eqn:Hd; [exact IH|].
    intros [= -> ->]. exact Hd.
Qed.

(** A string trims to the empty string exactly when all of it is white
    space. *)
Lemma trim_nil (s : jstring) : trim s = [] <-> forallb isWhiteSpace s = true.
Proof.
  rewrite <- trimStart_nil. unfold trim, trimEnd. split.
  - intros H. apply (f_equal (@rev _)) in H. rewrite rev_involutive in H.
    simpl in H. apply trimStart_nil in H.
    rewrite forallb_forall in H.
    destruct (trimStart s) as [|c t] eqn:E; [reflexivity|].
    apply trimStart_head in E.
    rewrite H in E; [discriminate|].
    apply in_rev. rewrite rev_involutive. now left.
  - intros ->. reflexivity.
Qed.

(** ** Arrays *)

Lemma findIndexFrom_first {A} (p : A -> bool) (a : list A) (i : nat) (x : A) (n : Z) :
  nth_error a i = Some x -> p x = true ->
  (forall j y, (j < i)%nat -> nth_error a j = Some y -> p y = false) ->
  findIndexFrom p a n = (n + Z.of_nat i)%Z.
Proof.
  revert i n. induction a as [|z a IH]; intros i n Hi Hp Hbefore.
  - destruct i; discriminate.
  - destruct i as [|i]; simpl in *.
    + injection Hi as ->. rewrite Hp. lia.
    + rewrite (Hbefore 0%nat z) by (reflexivity || lia).
      rewrite (IH i (n + 1)%Z Hi Hp).
      * lia.
      * intros j y Hj. apply (Hbefore (S j)). lia.
Qed.

Lemma findIndexFrom_none {A} (p : A -> bool) (a : list A) (n : Z) :
  (forall x, In x a -> p x = false) -> findIndexFrom p a n = (-1)%Z.
Proof.
  revert n. induction a as [|z a IH]; intros n H; simpl.
  - reflexivity.
  - rewrite (H z) by now left. apply IH. intros x Hx. apply H. now right.
Qed.


Lemma forallb_filter_same {A} (p : A -> bool) (l : list A) :
  forallb p (filter p l) = true.
Proof.
  apply forallb_forall. intros x Hx. now apply filter_In in Hx.
Qed.

(** ** Row tokenizer *)

(** The tokenizer always emits at least one field. *)
Lemma splitRow_cons (row : jstring) : exists c cells, splitRow row = c :: cells.
Proof.
  unfold splitRow.
  destruct (result (splitRowFrom row _)) as [|c cells]; simpl; eauto.
Qed.

(** C3: the tokenizer keeps a comma inside quotes in its field, and reads
    a doubled quote inside quotes as one quote character.  With Q for the
    quote character, the line [Name,QDoe, JohnQ,123] gives the three
    fields [Name], [Doe, John] and [123], and the second field of
    [A,QShe said QQhiQQQ,B] is [She said QhiQ]. *)
Theorem C3_splitRow_quotes :
  splitRow (js "Name," ++ [QUOTE] ++ js "Doe, John" ++ [QUOTE] ++ js ",123")
    = [js "Name"; js "Doe, John"; js "123"] /\
  nth_error
    (splitRow (js "A," ++ [QUOTE] ++ js "She said " ++ [QUOTE; QUOTE] ++ js "hi"
               ++ [QUOTE; QUOTE; QUOTE] ++ js ",B")) 1
    = Some (js "She said " ++ [QUOTE] ++ js "hi" ++ [QUOTE]).
Proof. split; vm_compute; reflexivity. Qed.

(** ** Header locator *)

Lemma rowScore_nonneg (line : jstring) : (0 <= rowScore line)%Z.
Proof. unfold rowScore. lia. Qed.

(** The loop over [a, a + n): it ends, its maximum bounds every score it
    passed, and when the state changed the new index is the first one
    that reaches the maximum. *)
Lemma scanHeaders_seq (score : jstring -> Z) (allLines : list jstring) (n a : nat)
    (st : ScanState) :
  (a + n <= List.length allLines)%nat ->
  exists st',
    scanHeaders score allLines (seq a n) st = Some st' /\
    (maxScore st <= maxScore st')%Z /\
    (forall j line, (a <= j < a + n)%nat -> nth_error allLines j = Some line ->
       (score line <= maxScore st')%Z) /\
    (st' = st \/
     ((a <= headerRowIndex st' < a + n)%nat /\
      (maxScore st < maxScore st')%Z /\
      (exists line, nth_error allLines (headerRowIndex st') = Some line /\
         score line = maxScore st') /\
      (forall j line, (a <= j < headerRowIndex st')%nat ->
         nth_error allLines j = Some line -> (score line < maxScore st')%Z))).
Proof.
  revert a st. induction n as [|n IH]; intros a st Hlen; simpl.
  - exists st. repeat split; try lia. now left.
  - destruct (nth_error allLines a) as [line|] eqn:Ha.
    2:{ apply nth_error_None in Ha. lia. }
    set (st1 := if (score line >? maxScore st)%Z then _ else st).
    destruct (IH (S a) st1) as (st' & Hrun & Hmono & Hmax & Hcase); [lia|].
    assert (H1 : (maxScore st <= maxScore st1)%Z /\ (score line <= maxScore st1)%Z).
    { subst st1. destruct (Z.gtb_spec (score line) (maxScore st)); simpl; lia. }
    exists st'. split; [exact Hrun|]. split; [lia|]. split.
    + intros j l Hj Hl. destruct (Nat.eq_dec j a) as [->|Hne].
      * rewrite Ha in Hl. injection Hl as <-. lia.
      * apply (Hmax j); [lia | exact Hl].
    + destruct Hcase as [-> | (Hh & Hlt & Hline & Hbefore)].
      * subst st1. destruct (Z.gtb_spec (score line) (maxScore st)); [|now left].
        right. simpl. repeat split; try lia.
        exists line. now split.
      * right. repeat split; try lia; [exact Hline|].
        intros j l Hj Hl. destruct (Nat.eq_dec j a) as [->|Hne].
        -- rewrite Ha in Hl. injection Hl as <-. lia.
        -- apply (Hbefore j); [lia | exact Hl].
Qed.

(** With at least one line and scores that are not negative, the locator
    returns the first index of the window that reaches the maximum. *)
Lemma locateHeader_argmax (score : jstring -> Z) (allLines : list jstring) :
  allLines <> [] -> (forall line, (0 <= score line)%Z) ->
  exists st,
    locateHeader score allLines = Some st /\
    (headerRowIndex st < Nat.min (List.length allLines) 10)%nat /\
    (exists line, nth_error allLines (headerRowIndex st) = Some line /\
       score line = maxScore st) /\
    (forall j line, (j < Nat.min (List.length allLines) 10)%nat ->
       nth_error allLines j = Some line -> (score line <= maxScore st)%Z) /\
    (forall j line, (j < headerRowIndex st)%nat ->
       nth_error allLines j = Some line -> (score line < maxScore st)%Z).
Proof.
  intros Hne Hpos. unfold locateHeader.
  destruct (scanHeaders_seq score allLines (Nat.min (List.length allLines) 10) 0
              {| headerRowIndex := 0; maxScore := -1 |})
    as (st & Hrun & _ & Hmax & Hcase); [simpl; lia|].
  exists st. split; [exact Hrun|].
  destruct Hcase as [-> | (Hh & _ & Hline & Hbefore)].
  - exfalso. destruct allLines as [|l ls]; [congruence|].
    assert (Hl : (score l <= -1)%Z).
    { apply (Hmax 0%nat); [simpl List.length; lia | reflexivity]. }
    specialize (Hpos l). lia.
  - repeat split.
    + lia.
    + exact Hline.
    + intros j line Hj. apply Hmax. lia.
    + intros j line Hj. apply Hbefore. lia.
Qed.

(** ** The parser, unfolded *)

Lemma parseCSV_no_lines (text : jstring) :
  nonEmptyLines text = [] ->
  parseCSV text = Some {| members := []; sheetUpdateDate := js "N/A" |}.
Proof.
  unfold parseCSV, nonEmptyLines. intros ->. reflexivity.
Qed.

Lemma parseCSV_lines (text : jstring) (st : ScanState) (headerLine : jstring) :
  nonEmptyLines text <> [] ->
  locateHeader rowScore (nonEmptyLines text) = Some st ->
  nth_error (nonEmptyLines text) (headerRowIndex st) = Some headerLine ->
  parseCSV text =
    Some {| members :=
              map (buildRecord (indices (map normalize (splitRow headerLine))))
                (skipn (headerRowIndex st + 1) (nonEmptyLines text));
            sheetUpdateDate :=
              orElse (nth_error (splitRow (hd [] (nonEmptyLines text))) 0) (js "N/A") |}.
Proof.
  unfold parseCSV, nonEmptyLines. intros Hne Hloc Hhdr.
  destruct (filter _ _) as [|line0 rest]; [congruence|].
  cbn [List.length Nat.ltb Nat.leb nth_error hd].
  rewrite Hloc, Hhdr. reflexivity.
Qed.

(** The parser returns a result of this shape whenever there is a line. *)
Lemma parseCSV_shape (text : jstring) :
  nonEmptyLines text <> [] ->
  exists st headerLine,
    locateHeader rowScore (nonEmptyLines text) = Some st /\
    nth_error (nonEmptyLines text) (headerRowIndex st) = Some headerLine /\
    parseCSV text =
      Some {| members :=
                map (buildRecord (indices (map normalize (splitRow headerLine))))
                  (skipn (headerRowIndex st + 1) (nonEmptyLines text));
              sheetUpdateDate :=
                orElse (nth_error (splitRow (hd [] (nonEmptyLines text))) 0)
                  (js "N/A") |}.
Proof.
  intros Hne.
  destruct (locateHeader_argmax rowScore _ Hne rowScore_nonneg)
    as (st & Hloc & _ & (headerLine & Hhdr & _) & _).
  exists st, headerLine. repeat split; try assumption.
  now apply parseCSV_lines.
Qed.

Lemma parseCSV_returns (text : jstring) : exists r, parseCSV text = Some r.
Proof.
  destruct (nonEmptyLines text) as [|line0 rest] eqn:E.
  - eexists. now apply parseCSV_no_lines.
  - destruct (parseCSV_shape text) as (st & headerLine & _ & _ & H).
    + rewrite E. discriminate.
    + eexists. exact H.
Qed.

(** ** The chosen header row *)

Lemma nodupb_NoDup (l : list jstring) : nodupb l = true -> NoDup l.
Proof.
  induction l as [|x l IH]; simpl; intros H.
  - constructor.
  - apply andb_true_iff in H. destruct H as [Hx Hl]. constructor; [|auto].
    intros Hin. apply negb_true_iff in Hx.
    assert (existsb (jstring_eqb x) l = true); [|congruence].
    apply existsb_exists. exists x. split; [exact Hin|]. now apply jstring_eqb_eq.
Qed.

(** The 41 keywords of the six lists are pairwise different, so a count
    over the combined list counts distinct keywords. *)
Lemma allKeywords_NoDup : NoDup allKeywords.
Proof. apply nodupb_NoDup. vm_compute. reflexivity. Qed.

(** The keywords are in lower case: the code strips them without
    lowering them, which is their normalization. *)
Lemma allKeywords_normalize (k : jstring) :
  In k allKeywords -> normalize k = stripNonAlnum k.
Proof.
  assert (H : forallb (fun k => jstring_eqb (normalize k) (stripNonAlnum k))
                allKeywords = true) by (vm_compute; reflexivity).
  rewrite forallb_forall in H. intros Hk. apply jstring_eqb_eq. now apply H.
Qed.

Lemma keywords_normalize (f : Field) (k : jstring) :
  In k (keywords f) -> normalize k = stripNonAlnum k.
Proof.
  intros Hk. apply allKeywords_normalize. unfold allKeywords.
  apply in_flat_map. exists f. split; [destruct f; simpl; tauto | exact Hk].
Qed.

Lemma keywordInRow_matches (line k : jstring) :
  In k allKeywords ->
  (keywordInRow (map normalize (splitRow line)) k = true <-> matchesKeyword line k).
Proof.
  intros Hk. unfold keywordInRow, matchesKeyword.
  rewrite (allKeywords_normalize k Hk), existsb_exists. split.
  - intros (h & Hin & Hinc). apply in_map_iff in Hin.
    destruct Hin as (cell & <- & Hcell).
    apply includes_substring in Hinc. destruct Hinc as (pre & post & Heq).
    now exists cell, pre, post.
  - intros (cell & pre & post & Hcell & Heq).
    exists (normalize cell). split; [now apply in_map|].
    apply includes_substring. now exists pre, post.
Qed.

(** When no score is above the sentinel, the loop leaves row 0. *)
Lemma locateHeader_fallback (score : jstring -> Z) (allLines : list jstring) :
  (forall j line, (j < 10)%nat -> nth_error allLines j = Some line ->
     (score line <= -1)%Z) ->
  option_map headerRowIndex (locateHeader score allLines) = Some 0%nat.
Proof.
  intros Hlow. unfold locateHeader.
  destruct (scanHeaders_seq score allLines (Nat.min (List.length allLines) 10) 0
              {| headerRowIndex := 0; maxScore := -1 |})
    as (st & Hrun & _ & _ & Hcase); [lia|].
  rewrite Hrun. simpl.
  destruct Hcase as [-> | (Hh & Hlt & (line & Hline & Hscore) & _)]; [reflexivity|].
  exfalso. simpl in Hlt.
  assert ((score line <= -1)%Z) by (apply (Hlow (headerRowIndex st)); [lia | exact Hline]).
  lia.
Qed.

(** [member] and [member#] are two keywords with one normalization: a
    cell that contains it counts for both. *)
Example rowScore_member : rowScore (js "Member") = 2%Z.
Proof. vm_compute. reflexivity. Qed.

(** C4: for a text with at least one non-empty line, the header row index
    - lies in the window of the first min(10, number of non-empty lines)
      rows,
    - has the maximal score of the window, where the score of a row is
      the number of distinct keywords of the six lists together whose
      normalization is a substring of a normalized cell of the row,
    - is the earliest index with that score (every row before it scores
      strictly less),
    and it is the index [parseCSV] takes the header from.  The loop
    leaves index 0 when no row scores above the sentinel -1. *)
Theorem C4_header_row :
  NoDup allKeywords /\
  (forall line, exists matched,
     NoDup matched /\
     (forall k, In k matched <-> In k allKeywords /\ matchesKeyword line k) /\
     rowScore line = Z.of_nat (List.length matched)) /\
  (forall text, nonEmptyLines text <> [] ->
     let allLines := nonEmptyLines text in
     let window := Nat.min 10 (List.length allLines) in
     exists st headerLine,
       locateHeader rowScore allLines = Some st /\
       (headerRowIndex st < window)%nat /\
       nth_error allLines (headerRowIndex st) = Some headerLine /\
       rowScore headerLine = maxScore st /\
       (forall j line, (j < window)%nat -> nth_error allLines j = Some line ->
          (rowScore line <= rowScore headerLine)%Z) /\
       (forall j line, (j < headerRowIndex st)%nat ->
          nth_error allLines j = Some line ->
          (rowScore line < rowScore headerLine)%Z) /\
       exists date,
         parseCSV text =
           Some {| members :=
                     map (buildRecord (indices (map normalize (splitRow headerLine))))
                       (skipn (headerRowIndex st + 1) allLines);
                   sheetUpdateDate := date |}) /\
  (forall score allLines,
     (forall j line, (j < 10)%nat -> nth_error allLines j = Some line ->
        (score line <= -1)%Z) ->
     option_map headerRowIndex (locateHeader score allLines) = Some 0%nat).
Proof.
  split; [exact allKeywords_NoDup|]. split; [|split; [|exact locateHeader_fallback]].
  - intros line.
    exists (filter (keywordInRow (map normalize (splitRow line))) allKeywords).
    split; [apply NoDup_filter, allKeywords_NoDup|]. split; [|reflexivity].
    intros k. rewrite filter_In.
    split; intros [Hk Hm]; (split; [exact Hk|]);
      now apply (keywordInRow_matches line k Hk).
  - intros text Hne allLines window.
    destruct (locateHeader_argmax rowScore allLines Hne rowScore_nonneg)
      as (st & Hloc & Hwin & (headerLine & Hhdr & Hscore) & Hmax & Hfirst).
    exists st, headerLine. rewrite Hscore.
    split; [exact Hloc|]. split; [subst window; lia|]. split; [exact Hhdr|].
    split; [reflexivity|]. split; [|split; [exact Hfirst|]].
    + intros j line Hj. apply Hmax. subst window. lia.
    + eexists. now apply parseCSV_lines.
Qed.

Lemma C4_header_row_witness :
  exists st headerLine,
    locateHeader rowScore (nonEmptyLines sampleText) = Some st /\
    (headerRowIndex st < 3)%nat /\
    nth_error (nonEmptyLines sampleText) (headerRowIndex st) = Some headerLine /\
    rowScore headerLine = maxScore st /\
    (forall j line, (j < 3)%nat -> nth_error (nonEmptyLines sampleText) j = Some line ->
       (rowScore line <= rowScore headerLine)%Z) /\
    (forall j line, (j < headerRowIndex st)%nat ->
       nth_error (nonEmptyLines sampleText) j = Some line ->
       (rowScore line < rowScore headerLine)%Z) /\
    exists date,
      parseCSV sampleText =
        Some {| members :=
                  map (buildRecord (indices (map normalize (splitRow headerLine))))
                    (skipn (headerRowIndex st + 1) (nonEmptyLines sampleText));
                sheetUpdateDate := date |}.
Proof.
  apply (proj1 (proj2 (proj2 C4_header_row)) sampleText).
  vm_compute. discriminate.
Defined.

(** ** Column mapper *)

Lemma exactMatch_iff (kList : list jstring) (h : jstring) :
  exactMatch kList h = true <-> exists k, In k kList /\ h = stripNonAlnum k.
Proof.
  unfold exactMatch. rewrite existsb_exists.
  split; intros (k & Hk & H); exists k; (split; [exact Hk|]);
    now apply jstring_eqb_eq.
Qed.

Lemma substringMatch_iff (kList : list jstring) (h : jstring) :
  substringMatch kList h = true <->
  exists k pre post, In k kList /\ h = pre ++ stripNonAlnum k ++ post.
Proof.
  unfold substringMatch. rewrite existsb_exists. split.
  - intros (k & Hk & H). apply includes_substring in H.
    destruct H as (pre & post & H). now exists k, pre, post.
  - intros (k & pre & post & Hk & H). exists k. split; [exact Hk|].
    apply includes_substring. now exists pre, post.
Qed.

Section FindColumn.

Variable headers : list jstring.
Variable kList : list jstring.

Lemma findColumn_exact (i : nat) (h : jstring) :
  nth_error headers i = Some h -> exactMatch kList h = true ->
  (forall j y, (j < i)%nat -> nth_error headers j = Some y ->
     exactMatch kList y = false) ->
  findColumn headers kList = Z.of_nat i.
Proof.
  intros Hi Hp Hbefore. unfold findColumn, findIndex.
  rewrite (findIndexFrom_first _ _ i h 0 Hi Hp Hbefore).
  destruct (Z.eqb_spec (0 + Z.of_nat i) (-1)); simpl; lia.
Qed.

Lemma findColumn_substring (i : nat) (h : jstring) :
  (forall y, In y headers -> exactMatch kList y = false) ->
  nth_error headers i = Some h -> substringMatch kList h = true ->
  (forall j y, (j < i)%nat -> nth_error headers j = Some y ->
     substringMatch kList y = false) ->
  findColumn headers kList = Z.of_nat i.
Proof.
  intros Hno Hi Hp Hbefore. unfold findColumn, findIndex.
  rewrite (findIndexFrom_none _ _ 0 Hno). simpl.
  rewrite (findIndexFrom_first _ _ i h 0 Hi Hp Hbefore). lia.
Qed.

Lemma findColumn_none :
  (forall y, In y headers -> exactMatch kList y = false) ->
  (forall y, In y headers -> substringMatch kList y = false) ->
  findColumn headers kList = (-1)%Z.
Proof.
  intros Hno Hno'. unfold findColumn, findIndex.
  rewrite (findIndexFrom_none _ _ 0 Hno). simpl.
  apply findIndexFrom_none, Hno'.
Qed.

End FindColumn.

Lemma indices_findColumn (headers : list jstring) (f : Field) :
  indices headers f =
    if (findColumn headers (keywords f) =? -1)%Z then positionalDefault f
    else findColumn headers (keywords f).
Proof.
  destruct f; unfold indices, positionalDefault;
    match goal with
    | |- context [(?c =? -1)%Z] => destruct (Z.eqb_spec c (-1)) as [E|E]
    end; simpl negb; cbv iota; try reflexivity; exact E.
Qed.

Lemma not_exactAt_false (f : Field) (rawHeaders : list jstring) (j : nat) (y : jstring) :
  ~ exactAt f rawHeaders j -> nth_error (map normalize rawHeaders) j = Some y ->
  exactMatch (keywords f) y = false.
Proof.
  intros Hno Hj. destruct (exactMatch (keywords f) y) eqn:E; [|reflexivity].
  exfalso. apply Hno. apply exactMatch_iff in E. destruct E as (k & Hk & ->).
  rewrite nth_error_map in Hj.
  destruct (nth_error rawHeaders j) as [cell|] eqn:Hc; [|discriminate].
  injection Hj as Hj. exists cell, k.
  now rewrite (keywords_normalize f k Hk).
Qed.

Lemma not_substringAt_false (f : Field) (rawHeaders : list jstring) (j : nat)
    (y : jstring) :
  ~ substringAt f rawHeaders j -> nth_error (map normalize rawHeaders) j = Some y ->
  substringMatch (keywords f) y = false.
Proof.
  intros Hno Hj. destruct (substringMatch (keywords f) y) eqn:E; [|reflexivity].
  exfalso. apply Hno. apply substringMatch_iff in E.
  destruct E as (k & pre & post & Hk & ->).
  rewrite nth_error_map in Hj.
  destruct (nth_error rawHeaders j) as [cell|] eqn:Hc; [|discriminate].
  injection Hj as Hj. exists cell, k, pre, post.
  now rewrite (keywords_normalize f k Hk).
Qed.

(** C5: on every header row and for each of the six fields, the column
    map gives the index of the first header cell, from the left, whose
    normalization equals a normalized keyword of the field; when no cell
    does, the index of the first cell whose normalization contains one;
    when no cell does either, column 0 for [accountName], column 1 for
    [accountNumber] and -1 for the other four fields. *)
Theorem C5_column_map :
  forall (rawHeaders : list jstring) (f : Field),
    let headers := map normalize rawHeaders in
    (forall i, exactAt f rawHeaders i ->
       (forall j, (j < i)%nat -> ~ exactAt f rawHeaders j) ->
       indices headers f = Z.of_nat i) /\
    (forall i, (forall j, ~ exactAt f rawHeaders j) ->
       substringAt f rawHeaders i ->
       (forall j, (j < i)%nat -> ~ substringAt f rawHeaders j) ->
       indices headers f = Z.of_nat i) /\
    ((forall j, ~ exactAt f rawHeaders j) ->
     (forall j, ~ substringAt f rawHeaders j) ->
     indices headers f = positionalDefault f).
Proof.
  intros rawHeaders f headers. rewrite indices_findColumn.
  assert (Hin : forall (p : jstring -> bool),
            (forall j y, nth_error headers j = Some y -> p y = false) ->
            forall y, In y headers -> p y = false).
  { intros p H y Hy. apply In_nth_error in Hy. destruct Hy as [j Hj]. eauto. }
  split; [|split].
  - intros i (cell & k & Hcell & Hk & Heq) Hfirst.
    rewrite (keywords_normalize f k Hk) in Heq.
    rewrite (findColumn_exact headers (keywords f) i (normalize cell)).
    + destruct (Z.eqb_spec (Z.of_nat i) (-1)); [lia | reflexivity].
    + subst headers. rewrite nth_error_map, Hcell. reflexivity.
    + apply exactMatch_iff. now exists k.
    + intros j y Hj. apply not_exactAt_false. now apply Hfirst.
  - intros i Hno (cell & k & pre & post & Hcell & Hk & Heq) Hfirst.
    rewrite (keywords_normalize f k Hk) in Heq.
    rewrite (findColumn_substring headers (keywords f) i (normalize cell)).
    + destruct (Z.eqb_spec (Z.of_nat i) (-1)); [lia | reflexivity].
    + apply Hin. intros j y. apply not_exactAt_false, Hno.
    + subst headers. rewrite nth_error_map, Hcell. reflexivity.
    + apply substringMatch_iff. now exists k, pre, post.
    + intros j y Hj. apply not_substringAt_false. now apply Hfirst.
  - intros Hno Hno'. rewrite findColumn_none; [reflexivity| |].
    + apply Hin. intros j y. apply not_exactAt_false, Hno.
    + apply Hin. intros j y. apply not_substringAt_false, Hno'.
Qed.

Lemma exactAt_cell (f : Field) (rawHeaders : list jstring) (j : nat) :
  exactAt f rawHeaders j ->
  exists cell, nth_error rawHeaders j = Some cell /\
    exactMatch (keywords f) (normalize cell) = true.
Proof.
  intros (cell & k & Hcell & Hk & Heq). exists cell. split; [exact Hcell|].
  rewrite (keywords_normalize f k Hk) in Heq.
  apply exactMatch_iff. now exists k.
Qed.

Lemma substringAt_cell (f : Field) (rawHeaders : list jstring) (j : nat) :
  substringAt f rawHeaders j ->
  exists cell, nth_error rawHeaders j = Some cell /\
    substringMatch (keywords f) (normalize cell) = true.
Proof.
  intros (cell & k & pre & post & Hcell & Hk & Heq). exists cell.
  rewrite (keywords_normalize f k Hk) in Heq.
  split; [exact Hcell|]. apply substringMatch_iff. now exists k, pre, post.
Qed.

(** No cell of a concrete header row matches: by evaluation of the
    matcher on each cell. *)
Ltac no_match_at H :=
  let cell := fresh "cell" in
  let Hc := fresh "Hc" in
  let Hm := fresh "Hm" in
  destruct H as (cell & Hc & Hm);
  repeat match type of Hc with
         | nth_error _ ?j = _ => is_var j; destruct j; simpl in Hc
         end;
  try discriminate; injection Hc as <-; vm_compute in Hm; discriminate.

Lemma C5_column_map_witness :
  indices (map normalize sampleHeaders) NextDueDate = 2%Z /\
  indices (map normalize [js "Member Name"; js "Total Balance Due"]) NextDueAmount
    = 1%Z /\
  indices (map normalize [js "Col A"; js "Col B"]) AccountNumber = 1%Z /\
  indices (map normalize [js "Col A"; js "Col B"]) Bps = (-1)%Z.
Proof.
  split; [|split; [|split]].
  - apply (proj1 (C5_column_map sampleHeaders NextDueDate) 2%nat).
    + exists (js "Due Date"), (js "duedate").
      repeat split; vm_compute; auto.
    + intros j Hj H. apply exactAt_cell in H.
      destruct j as [|[|j]]; [| |lia]; simpl in H; no_match_at H.
  - apply (proj1 (proj2 (C5_column_map [js "Member Name"; js "Total Balance Due"]
                           NextDueAmount)) 1%nat).
    + intros j H. apply exactAt_cell in H. no_match_at H.
    + exists (js "Total Balance Due"), (js "balance"), (js "total"), (js "due").
      repeat split; vm_compute; auto 10.
    + intros j Hj H. apply substringAt_cell in H.
      destruct j as [|j]; [|lia]. simpl in H. no_match_at H.
  - apply (proj2 (proj2 (C5_column_map [js "Col A"; js "Col B"] AccountNumber))).
    + intros j H. apply exactAt_cell in H. no_match_at H.
    + intros j H. apply substringAt_cell in H. no_match_at H.
  - apply (proj2 (proj2 (C5_column_map [js "Col A"; js "Col B"] Bps))).
    + intros j H. apply exactAt_cell in H. no_match_at H.
    + intros j H. apply substringAt_cell in H. no_match_at H.
Defined.

(** ** Record builder *)

Lemma field_buildRecord (idx : Field -> Z) (line : jstring) (f : Field) :
  field f (buildRecord idx line) = fieldValue idx (splitRow line) f.
Proof. destruct f; reflexivity. Qed.

Lemma fieldDefault_nonempty (f : Field) : fieldDefault f <> [].
Proof. destruct f; discriminate. Qed.

Lemma fieldValue_nonempty (idx : Field -> Z) (values : list jstring) (f : Field) :
  fieldValue idx values f <> [].
Proof.
  unfold fieldValue, orElse.
  destruct (getVal values (idx f)); [apply fieldDefault_nonempty | discriminate].
Qed.

Lemma fieldValue_cell (idx : Field -> Z) (values : list jstring) (f : Field)
    (v : jstring) :
  (0 <= idx f)%Z -> nth_error values (Z.to_nat (idx f)) = Some v -> v <> [] ->
  fieldValue idx values f = v.
Proof.
  intros Hidx Hv Hne. unfold fieldValue, getVal.
  destruct (Z.geb_spec (idx f) 0); [|lia].
  rewrite Hv. destruct v; [congruence | reflexivity].
Qed.

Lemma fieldValue_default (idx : Field -> Z) (values : list jstring) (f : Field) :
  (idx f < 0)%Z \/ nth_error values (Z.to_nat (idx f)) = None \/
    nth_error values (Z.to_nat (idx f)) = Some [] ->
  fieldValue idx values f = fieldDefault f.
Proof.
  unfold fieldValue, getVal.
  intros Hcase. destruct (Z.geb_spec (idx f) 0); [|reflexivity].
  destruct Hcase as [Hlt | [-> | ->]]; [lia | reflexivity | reflexivity].
Qed.

(** C6: when the text has a non-empty line, [parseCSV] returns one record
    for each non-empty line after the header row and no other, in the
    order of the lines: record [i] is built from line
    [headerRowIndex + 1 + i].  Each of its fields is the cell at the
    mapped index when the index is not negative, the row has a cell
    there and the cell is not empty; otherwise it is [N/A] for
    [accountName], [accountNumber] and [nextDueDate], and [0.00] for
    [nextDueAmount], [bps] and [overdueAmount]. *)
Theorem C6_records :
  forall text, nonEmptyLines text <> [] ->
    let allLines := nonEmptyLines text in
    exists st headerLine r,
      locateHeader rowScore allLines = Some st /\
      nth_error allLines (headerRowIndex st) = Some headerLine /\
      parseCSV text = Some r /\
      List.length (members r)
        = (List.length allLines - (headerRowIndex st + 1))%nat /\
      forall i,
        match nth_error allLines (headerRowIndex st + 1 + i) with
        | None => nth_error (members r) i = None
        | Some line =>
            exists m, nth_error (members r) i = Some m /\
              forall f,
                let idx := indices (map normalize (splitRow headerLine)) f in
                let values := splitRow line in
                (forall v, (0 <= idx)%Z ->
                   nth_error values (Z.to_nat idx) = Some v -> v <> [] ->
                   field f m = v) /\
                ((idx < 0)%Z \/ nth_error values (Z.to_nat idx) = None \/
                   nth_error values (Z.to_nat idx) = Some [] ->
                 field f m =
                   match f with
                   | AccountName | AccountNumber | NextDueDate => js "N/A"
                   | NextDueAmount | Bps | OverdueAmount => js "0.00"
                   end)
        end.
Proof.
  intros text Hne allLines.
  destruct (parseCSV_shape text Hne) as (st & headerLine & Hloc & Hhdr & Hparse).
  exists st, headerLine. eexists. split; [exact Hloc|]. split; [exact Hhdr|].
  split; [exact Hparse|]. cbn [members]. split.
  - rewrite length_map, length_skipn. reflexivity.
  - intros i. rewrite nth_error_map, nth_error_skipn. fold allLines.
    destruct (nth_error allLines (headerRowIndex st + 1 + i)) as [line|];
      [|reflexivity].
    eexists. split; [reflexivity|]. intros f. cbv zeta.
    rewrite field_buildRecord. split.
    + apply fieldValue_cell.
    + intros Hcase. rewrite (fieldValue_default _ _ f Hcase).
      destruct f; reflexivity.
Qed.

Lemma C6_records_witness :
  exists st headerLine r,
    locateHeader rowScore (nonEmptyLines sampleText) = Some st /\
    nth_error (nonEmptyLines sampleText) (headerRowIndex st) = Some headerLine /\
    parseCSV sampleText = Some r /\
    List.length (members r)
      = (List.length (nonEmptyLines sampleText) - (headerRowIndex st + 1))%nat /\
    forall i,
      match nth_error (nonEmptyLines sampleText) (headerRowIndex st + 1 + i) with
      | None => nth_error (members r) i = None
      | Some line =>
          exists m, nth_error (members r) i = Some m /\
            forall f,
              let idx := indices (map normalize (splitRow headerLine)) f in
              let values := splitRow line in
              (forall v, (0 <= idx)%Z ->
                 nth_error values (Z.to_nat idx) = Some v -> v <> [] ->
                 field f m = v) /\
              ((idx < 0)%Z \/ nth_error values (Z.to_nat idx) = None \/
                 nth_error values (Z.to_nat idx) = Some [] ->
               field f m =
                 match f with
                 | AccountName | AccountNumber | NextDueDate => js "N/A"
                 | NextDueAmount | Bps | OverdueAmount => js "0.00"
                 end)
      end.
Proof.
  apply (C6_records sampleText). vm_compute. discriminate.
Defined.

(** C10: in every record that [parseCSV] returns, on every text, each of
    the six fields is a non-empty string: an empty or missing cell is
    replaced by the default of its field, and no default is empty. *)
Theorem C10_fields_nonempty :
  forall text r m f,
    parseCSV text = Some r -> In m (members r) -> field f m <> [].
Proof.
  intros text r m f Hr Hm.
  destruct (nonEmptyLines text) as [|line0 rest] eqn:E.
  - rewrite (parseCSV_no_lines text E) in Hr. injection Hr as <-. destruct Hm.
  - destruct (parseCSV_shape text) as (st & headerLine & _ & _ & H).
    + rewrite E. discriminate.
    + rewrite H in Hr. injection Hr as <-. simpl in Hm.
      apply in_map_iff in Hm. destruct Hm as (line & <- & _).
      rewrite field_buildRecord. apply fieldValue_nonempty.
Qed.

Lemma C10_fields_nonempty_witness : field OverdueAmount janeDoe <> [].
Proof.
  exact (C10_fields_nonempty sampleText
           {| members := [janeDoe]; sheetUpdateDate := js "2024-05-01 Export" |}
           janeDoe OverdueAmount eq_refl (or_introl eq_refl)).
Defined.

(** ** The parser on a whole text *)

(** The byte-order mark and the CR of a CR LF line end are not part of
    any line. *)
Example parseCSV_bom_crlf : parseCSV sampleTextCRLF = parseCSV sampleText.
Proof. vm_compute. reflexivity. Qed.

(** A line of white space is no line: rows are counted without it. *)
Example nonEmptyLines_blank :
  nonEmptyLines (js "a" ++ [LF; 32; 9; CR; LF; LF] ++ js "b") = [js "a"; js "b"].
Proof. vm_compute. reflexivity. Qed.

(** C1: on the three lines [2024-05-01 Export],
    [Member Name,Account No,Due Date,Due Amount] and
    [Jane Doe,1001,20240615,150.00] the header loop selects row index 1,
    and [parseCSV] returns the metadata date [2024-05-01 Export] and
    exactly one record: Jane Doe, 1001, 20240615, 150.00, and the default
    0.00 for [bps] and [overdueAmount]. *)
Theorem C1_parse_sample :
  option_map headerRowIndex (locateHeader rowScore (nonEmptyLines sampleText))
    = Some 1%nat /\
  parseCSV sampleText =
    Some {| members := [janeDoe]; sheetUpdateDate := js "2024-05-01 Export" |}.
Proof. split; vm_compute; reflexivity. Qed.

(** C2: [parseCSV] returns a result on every text: no array read that the
    code dereferences is out of range, so no TypeError is raised.  The
    empty string and a single character are instances. *)
Theorem C2_parseCSV_total :
  (forall text, exists r, parseCSV text = Some r) /\
  parseCSV [] = Some {| members := []; sheetUpdateDate := js "N/A" |} /\
  parseCSV (js "x") = Some {| members := []; sheetUpdateDate := js "x" |} /\
  parseCSV [0; 65535; QUOTE; CR; 55296] =
    Some {| members := []; sheetUpdateDate := [0; 65535; CR; 55296] |}.
Proof.
  split; [exact parseCSV_returns|].
  repeat split; vm_compute; reflexivity.
Qed.

(** C7: the metadata date is the first cell of the first non-empty line
    of the text without its byte-order mark, or [N/A] when that cell is
    empty; it depends on no other line, so not on the row chosen as the
    header.  A text without a non-empty line gives no record and the
    metadata date [N/A]. *)
Theorem C7_metadataDate :
  forall text,
    (nonEmptyLines text = [] ->
     parseCSV text = Some {| members := []; sheetUpdateDate := js "N/A" |}) /\
    (forall line0 rest, nonEmptyLines text = line0 :: rest ->
     exists c cells r,
       splitRow line0 = c :: cells /\
       parseCSV text = Some r /\
       sheetUpdateDate r = match c with [] => js "N/A" | _ :: _ => c end) /\
    (forall text' r r',
       hd_error (nonEmptyLines text) = hd_error (nonEmptyLines text') ->
       parseCSV text = Some r -> parseCSV text' = Some r' ->
       sheetUpdateDate r = sheetUpdateDate r').
Proof.
  assert (Hdate : forall text r, parseCSV text = Some r ->
            sheetUpdateDate r =
              match hd_error (nonEmptyLines text) with
              | None => js "N/A"
              | Some line0 => orElse (nth_error (splitRow line0) 0) (js "N/A")
              end).
  { intros text r Hr. destruct (nonEmptyLines text) as [|line0 rest] eqn:E.
    - rewrite (parseCSV_no_lines text E) in Hr. now injection Hr as <-.
    - destruct (parseCSV_shape text) as (st & headerLine & _ & _ & H).
      + rewrite E. discriminate.
      + rewrite H, E in Hr. now injection Hr as <-. }
  intros text. split; [apply parseCSV_no_lines|]. split.
  - intros line0 rest E.
    destruct (splitRow_cons line0) as (c & cells & Hc).
    destruct (parseCSV_returns text) as [r Hr].
    exists c, cells, r. repeat split; try assumption.
    rewrite (Hdate text r Hr), E. simpl. rewrite Hc. simpl. now destruct c.
  - intros text' r r' Hhd Hr Hr'.
    rewrite (Hdate text r Hr), (Hdate text' r' Hr'), Hhd. reflexivity.
Qed.

Lemma C7_metadataDate_witness :
  exists c cells r,
    splitRow (js "2024-05-01 Export") = c :: cells /\
    parseCSV sampleText = Some r /\
    sheetUpdateDate r = match c with [] => js "N/A" | _ :: _ => c end.
Proof.
  exact (proj1 (proj2 (C7_metadataDate sampleText))
           (js "2024-05-01 Export")
           [js "Member Name,Account No,Due Date,Due Amount";
            js "Jane Doe,1001,20240615,150.00"]
           eq_refl).
Defined.

(** ** Formatters *)

(** The guard of [formatDate] fails on a string that is not empty, not
    [N/A] and not all white space. *)
Lemma formatDate_guard (s : jstring) :
  s <> [] -> s <> js "N/A" -> forallb isWhiteSpace s = false ->
  jstring_eqb s [] || jstring_eqb s (js "N/A") || jstring_eqb (trim s) [] = false.
Proof.
  intros H1 H2 H3. rewrite !jstring_eqb_neq; auto.
  intros H. apply trim_nil in H. congruence.
Qed.

(** C8: [formatDate] returns [N/A] on the empty string, on [N/A] and on a
    string of white space only.  On any other string whose digits are
    exactly eight it returns them as MM/DD/YYYY, read as YYYYMMDD; every
    other string is returned unchanged.  So 20240615 gives 06/15/2024,
    [N/A] and the empty string give [N/A], and [June 2024] is
    unchanged. *)
Theorem C8_formatDate :
  (forall s, s = [] \/ s = js "N/A" \/ forallb isWhiteSpace s = true ->
     formatDate s = js "N/A") /\
  (forall s y1 y2 y3 y4 m1 m2 d1 d2,
     s <> [] -> s <> js "N/A" -> forallb isWhiteSpace s = false ->
     digitsOnly s = [y1; y2; y3; y4; m1; m2; d1; d2] ->
     formatDate s = [m1; m2] ++ js "/" ++ [d1; d2] ++ js "/" ++ [y1; y2; y3; y4]) /\
  (forall s,
     s <> [] -> s <> js "N/A" -> forallb isWhiteSpace s = false ->
     List.length (digitsOnly s) <> 8%nat ->
     formatDate s = s) /\
  formatDate (js "20240615") = js "06/15/2024" /\
  formatDate (js "N/A") = js "N/A" /\
  formatDate [] = js "N/A" /\
  formatDate (js "June 2024") = js "June 2024".
Proof.
  split; [|split; [|split; [|repeat split; vm_compute; reflexivity]]].
  - intros s [-> | [-> | Hws]]; try reflexivity.
    unfold formatDate. apply trim_nil in Hws. rewrite Hws.
    now rewrite orb_true_r.
  - intros s y1 y2 y3 y4 m1 m2 d1 d2 H1 H2 H3 Hd.
    unfold formatDate. rewrite formatDate_guard by assumption.
    unfold isEightDigits. rewrite (forallb_filter_same isDigit s : forallb _ (digitsOnly s) = true).
    rewrite Hd. reflexivity.
  - intros s H1 H2 H3 Hlen.
    unfold formatDate. rewrite formatDate_guard by assumption.
    apply Nat.eqb_neq in Hlen. rewrite Hlen. reflexivity.
Qed.

Lemma C8_formatDate_witness :
  formatDate (js " ") = js "N/A" /\
  formatDate (js "2024-06-15") = js "06/15/2024" /\
  formatDate (js "15 June 2024") = js "15 June 2024".
Proof.
  split; [|split].
  - apply (proj1 C8_formatDate). right. right. reflexivity.
  - apply (proj1 (proj2 C8_formatDate) (js "2024-06-15") 50 48 50 52 48 54 49 53);
      (discriminate || reflexivity).
  - apply (proj1 (proj2 (proj2 C8_formatDate)));
      (reflexivity || (vm_compute; discriminate)).
Defined.

Lemma isNumeric_cases (c : char) :
  isNumeric c = true -> 48 <= c <= 57 \/ c = 46 \/ c = 45.
Proof.
  unfold isNumeric, isDigit.
  rewrite !orb_true_iff, andb_true_iff, !N.leb_le, !N.eqb_eq. tauto.
Qed.

Lemma isNumeric_not_space (c : char) : isNumeric c = true -> isWhiteSpace c = false.
Proof.
  intros H. apply isNumeric_cases in H.
  destruct H as [H | [-> | ->]]; [|reflexivity..].
  unfold isWhiteSpace. cbn [existsb].
  repeat match goal with
         | |- context [N.eqb c ?k] =>
             replace (N.eqb c k) with false by (symmetry; apply N.eqb_neq; lia)
         end.
  replace (8192 <=? c) with false by (symmetry; apply N.leb_gt; lia).
  reflexivity.
Qed.

Lemma readUnsigned_None (negative : bool) (t : jstring) :
  match t with c :: _ => c <> 73 | [] => True end ->
  (readUnsigned negative t = None <-> beginsUnsigned t = false).
Proof.
  intros Hhd. unfold readUnsigned.
  replace (startsWith t (js "Infinity")) with false.
  2:{ destruct t as [|c t']; [reflexivity|].
      change (startsWith (c :: t') (js "Infinity"))
        with ((73 =? c) && startsWith t' (js "nfinity")).
      replace (73 =? c) with false; [reflexivity|].
      symmetry. apply N.eqb_neq. congruence. }
  destruct t as [|c t']; [simpl; tauto|].
  simpl. destruct (isDigit c) eqn:Hc.
  - destruct (span isDigit t') as [a b]. simpl.
    destruct b as [|dot b']; [split; discriminate|].
    destruct (dot =? 46); [destruct (span isDigit b')|]; split; discriminate.
  - simpl. destruct (c =? 46); [|tauto].
    destruct t' as [|d t'']; [simpl; tauto|].
    simpl. destruct (isDigit d).
    + destruct (span isDigit t''). split; discriminate.
    + tauto.
Qed.

(** On a string of digits, [.] and [-] only, [parseFloat] returns NaN
    exactly when the string does not begin with a number. *)
Lemma parseFloat_NaN (t : jstring) :
  forallb isNumeric t = true ->
  (parseFloat t = None <-> beginsNumber t = false).
Proof.
  intros Hnum. unfold parseFloat, beginsNumber.
  destruct t as [|c t']; [simpl; tauto|].
  simpl in Hnum. apply andb_true_iff in Hnum. destruct Hnum as [Hc Ht'].
  simpl. rewrite (isNumeric_not_space c Hc).
  pose proof (isNumeric_cases c Hc) as Hcases.
  destruct (N.eqb_spec c 45) as [->|Hne].
  - apply readUnsigned_None. destruct t' as [|d t'']; [exact I|].
    simpl in Ht'. apply andb_true_iff in Ht'. destruct Ht' as [Hd _].
    apply isNumeric_cases in Hd. lia.
  - replace (c =? 43) with false by (symmetry; apply N.eqb_neq; lia).
    apply readUnsigned_None. lia.
Qed.

Lemma stripNonNumeric_numeric (s : jstring) :
  forallb isNumeric (stripNonNumeric s) = true.
Proof. apply (forallb_filter_same isNumeric). Qed.

(** [formatPeso] returns the zero amount exactly on those strings,
    whatever the number format. *)
Lemma formatPeso_zero (numberFormat : Literal -> jstring) (amount : jstring) :
  beginsNumber (stripNonNumeric amount) = false ->
  formatPeso numberFormat amount = PESO :: js "0.00".
Proof.
  intros H. apply parseFloat_NaN in H; [|apply stripNonNumeric_numeric].
  unfold formatPeso. now rewrite H.
Qed.

(** C9: when [parseFloat] reads no number from the amount without the
    characters other than digits, [.] and [-], [formatPeso] returns the
    peso sign followed by [0.00]; [abc] is such an amount.  The function
    is total: it raises nothing.  The unparseable amounts are those whose
    remaining characters do not begin with a digit or [.] and a digit,
    after an optional [-]. *)
Theorem C9_formatPeso_unparseable :
  forall numberFormat,
    (forall amount, parseFloat (stripNonNumeric amount) = None ->
       formatPeso numberFormat amount = PESO :: js "0.00") /\
    formatPeso numberFormat (js "abc") = PESO :: js "0.00" /\
    (forall amount,
       parseFloat (stripNonNumeric amount) = None <->
       beginsNumber (stripNonNumeric amount) = false).
Proof.
  intros numberFormat. split; [|split].
  - intros amount H. unfold formatPeso. now rewrite H.
  - reflexivity.
  - intros amount. apply parseFloat_NaN, stripNonNumeric_numeric.
Qed.

Lemma C9_formatPeso_unparseable_witness :
  formatPeso (fun _ => js "1.00") (js "N/A -.") = PESO :: js "0.00".
Proof.
  apply (proj1 (C9_formatPeso_unparseable (fun _ => js "1.00"))). reflexivity.
Defined.

(** * Further properties *)

(** ** White space *)

Lemma forallb_rev {A} (p : A -> bool) (l : list A) :
  forallb p (rev l) = forallb p l.
Proof.
  destruct (forallb p l) eqn:E.
  - rewrite forallb_forall in *. intros x Hx. apply E. now apply in_rev.
  - destruct (forallb p (rev l)) eqn:E'; [|reflexivity].
    rewrite forallb_forall in E'. rewrite <- E. symmetry.
    apply forallb_forall. intros x Hx. apply E'. now apply in_rev in Hx.
Qed.

Lemma trimStart_keep (s : jstring) :
  match s with c :: _ => isWhiteSpace c = false | [] => True end ->
  trimStart s = s.
Proof. destruct s as [|c s]; simpl; [reflexivity|]. now intros ->. Qed.

Lemma trimStart_idem (s : jstring) : trimStart (trimStart s) = trimStart s.
Proof.
  apply trimStart_keep. destruct (trimStart s) as [|c t] eqn:E; [exact I|].
  exact (trimStart_head s c t E).
Qed.

(** What [trimStart] removes is white space. *)
Lemma trimStart_split (s : jstring) :
  exists ws, forallb isWhiteSpace ws = true /\ s = ws ++ trimStart s.
Proof.
  induction s as [|c s (ws & Hws & Hs)]; simpl.
  - now exists [].
  - destruct (isWhiteSpace c) eqn:Hc.
    + exists (c :: ws). simpl. rewrite Hc, Hws. split; [reflexivity|]. now f_equal.
    + now exists [].
Qed.

Lemma trimStart_app (s t : jstring) :
  trimStart (s ++ t) =
    if forallb isWhiteSpace s then trimStart t else trimStart s ++ t.
Proof.
  induction s as [|c s IH]; simpl; [reflexivity|].
  destruct (isWhiteSpace c); simpl; [exact IH | reflexivity].
Qed.

Lemma trimEnd_app_space (s ws : jstring) :
  forallb isWhiteSpace ws = true -> trimEnd (s ++ ws) = trimEnd s.
Proof.
  intros Hws. unfold trimEnd. rewrite rev_app_distr, trimStart_app, forallb_rev, Hws.
  reflexivity.
Qed.

(** White space around a string does not change what it trims to. *)
Lemma trim_around (ws1 s ws2 : jstring) :
  forallb isWhiteSpace ws1 = true -> forallb isWhiteSpace ws2 = true ->
  trim (ws1 ++ s ++ ws2) = trim s.
Proof.
  intros H1 H2. unfold trim. rewrite trimStart_app, H1, trimStart_app.
  destruct (forallb isWhiteSpace s) eqn:Hs.
  - apply trimStart_nil in Hs. rewrite Hs.
    apply trimStart_nil in H2. rewrite H2. reflexivity.
  - now apply trimEnd_app_space.
Qed.

Lemma trim_idem (s : jstring) : trim (trim s) = trim s.
Proof.
  unfold trim at 2 3. unfold trimEnd.
  destruct (trimStart_split (rev (trimStart s))) as (ws & Hws & Hsplit).
  set (u := trimStart (rev (trimStart s))) in *.
  assert (Hu : trimStart u = u) by (subst u; apply trimStart_idem).
  assert (Hkeep : trimStart (rev u) = rev u).
  { apply trimStart_keep. destruct (rev u) as [|c r] eqn:Er; [exact I|].
    apply (f_equal (@rev _)) in Hsplit. rewrite rev_involutive, rev_app_distr, Er in Hsplit.
    simpl in Hsplit. exact (trimStart_head s c _ Hsplit). }
  unfold trim, trimEnd. rewrite Hkeep, rev_involutive, Hu. reflexivity.
Qed.

(** ** Row tokenizer *)

Lemma splitRowFrom_other (c : char) (rest : jstring) (st : SplitState) :
  (c =? QUOTE) = false ->
  splitRowFrom (c :: rest) st = splitRowFrom rest (scanChar c st).
Proof. intros H. simpl. destruct rest; rewrite ?H; reflexivity. Qed.

Lemma splitRowFrom_open (rest : jstring) (st : SplitState) :
  inQuotes st = false ->
  splitRowFrom (QUOTE :: rest) st = splitRowFrom rest (scanChar QUOTE st).
Proof.
  intros H. simpl. destruct rest; rewrite ?H, ?andb_false_r; reflexivity.
Qed.

Lemma splitRowFrom_close (rest : jstring) (st : SplitState) :
  match rest with d :: _ => d =? QUOTE | [] => false end = false ->
  splitRowFrom (QUOTE :: rest) st = splitRowFrom rest (scanChar QUOTE st).
Proof.
  intros H. simpl. destruct rest; [reflexivity|]. rewrite H. reflexivity.
Qed.

Lemma splitRowFrom_escaped (rest : jstring) (st : SplitState) :
  inQuotes st = true ->
  splitRowFrom (QUOTE :: QUOTE :: rest) st = splitRowFrom rest (escapedQuote st).
Proof. intros H. simpl. rewrite H. reflexivity. Qed.

(** A field without comma or quote goes to the cell as it is. *)
Lemma splitRowFrom_plain (f rest : jstring) (res : list jstring) (cel : jstring) :
  hasSpecial f = false ->
  splitRowFrom (f ++ rest) {| result := res; cell := cel; inQuotes := false |}
  = splitRowFrom rest {| result := res; cell := cel ++ f; inQuotes := false |}.
Proof.
  revert cel. induction f as [|c f IH]; intros cel Hf; simpl app.
  - now rewrite app_nil_r.
  - simpl in Hf. apply orb_false_iff in Hf. destruct Hf as [Hc Hf].
    apply orb_false_iff in Hc. destruct Hc as [Hq Hcomma].
    rewrite splitRowFrom_other by exact Hq.
    unfold scanChar. rewrite Hq, Hcomma. simpl.
    rewrite IH by exact Hf. now rewrite <- app_assoc.
Qed.

(** Inside quotes, up to the closing quote: the field with its quotes
    doubled goes to the cell with single quotes. *)
Lemma splitRowFrom_inner (f rest : jstring) (res : list jstring) (cel : jstring) :
  match rest with d :: _ => d =? QUOTE | [] => false end = false ->
  splitRowFrom (escapeQuotes f ++ QUOTE :: rest)
    {| result := res; cell := cel; inQuotes := true |}
  = splitRowFrom rest {| result := res; cell := cel ++ f; inQuotes := false |}.
Proof.
  intros Hrest. revert cel. induction f as [|c f IH]; intros cel.
  - simpl app. rewrite splitRowFrom_close by exact Hrest.
    now rewrite app_nil_r.
  - change (escapeQuotes (c :: f))
      with ((if c =? QUOTE then [QUOTE; QUOTE] else [c]) ++ escapeQuotes f).
    destruct (N.eqb_spec c QUOTE) as [->|Hne].
    + simpl app. rewrite splitRowFrom_escaped by reflexivity.
      unfold escapedQuote. simpl. rewrite IH. now rewrite <- app_assoc.
    + simpl app. apply N.eqb_neq in Hne.
      rewrite splitRowFrom_other by exact Hne.
      unfold scanChar. rewrite Hne. simpl. rewrite andb_false_r.
      rewrite IH. now rewrite <- app_assoc.
Qed.

Lemma splitRowFrom_csvField (f rest : jstring) (res : list jstring) (cel : jstring) :
  match rest with d :: _ => d =? QUOTE | [] => false end = false ->
  splitRowFrom (csvField f ++ rest)
    {| result := res; cell := cel; inQuotes := false |}
  = splitRowFrom rest {| result := res; cell := cel ++ f; inQuotes := false |}.
Proof.
  intros Hrest. unfold csvField. destruct (hasSpecial f) eqn:Hf.
  - simpl app. rewrite <- app_assoc. simpl app.
    rewrite splitRowFrom_open by reflexivity.
    unfold scanChar. simpl. now apply splitRowFrom_inner.
  - now apply splitRowFrom_plain.
Qed.

Lemma splitRowFrom_comma (rest : jstring) (res : list jstring) (cel : jstring) :
  splitRowFrom (COMMA :: rest) {| result := res; cell := cel; inQuotes := false |}
  = splitRowFrom rest
      {| result := res ++ [trim cel]; cell := []; inQuotes := false |}.
Proof. now rewrite splitRowFrom_other. Qed.

Lemma splitRowFrom_csvRow (fields : list jstring) (f : jstring) (res : list jstring) :
  let st := splitRowFrom (csvRow (f :: fields))
              {| result := res; cell := []; inQuotes := false |} in
  result st ++ [trim (cell st)] = res ++ map trim (f :: fields).
Proof.
  revert f res. induction fields as [|g gs IH]; intros f res; unfold csvRow.
  - simpl. rewrite app_nil_r.
    rewrite <- (app_nil_r (csvField f)), splitRowFrom_csvField by reflexivity.
    reflexivity.
  - change (joinWith [COMMA] (map csvField (f :: g :: gs)))
      with (csvField f ++ COMMA :: csvRow (g :: gs)).
    rewrite splitRowFrom_csvField by reflexivity.
    rewrite splitRowFrom_comma. cbv zeta in IH. rewrite IH.
    simpl. now rewrite <- app_assoc.
Qed.

(** X1: what a CSV writer writes, the tokenizer reads back.  For a row
    of at least one field, written with commas between the fields and
    with quotes (every inner quote doubled) around a field that has a
    comma or a quote, [splitRow] returns the fields, each trimmed. *)
Theorem X1_splitRow_csvRow :
  forall fields, fields <> [] -> splitRow (csvRow fields) = map trim fields.
Proof.
  intros [|f fields] Hne; [congruence|].
  unfold splitRow. apply (splitRowFrom_csvRow fields f []).
Qed.

Lemma X1_splitRow_csvRow_witness :
  splitRow (csvRow [js "Doe, John"; js " 12 "; [QUOTE; 104; 105; QUOTE]; []])
  = map trim [js "Doe, John"; js " 12 "; [QUOTE; 104; 105; QUOTE]; []].
Proof. apply X1_splitRow_csvRow. discriminate. Defined.

(** Induction along the loop of [splitRow], which passes one character
    or two. *)
Lemma jstring_ind2 (P : jstring -> Prop) :
  P [] -> (forall c, P [c]) ->
  (forall c d r, P r -> P (d :: r) -> P (c :: d :: r)) ->
  forall r, P r.
Proof.
  intros H0 H1 H2 r.
  enough (H : P r /\ forall c, P (c :: r)) by apply H.
  induction r as [|d r [IH IH']]; split; auto.
Qed.

Lemma splitRowFrom_two (c d : char) (r : jstring) (st : SplitState) :
  splitRowFrom (c :: d :: r) st =
    if (c =? QUOTE) && (d =? QUOTE) && inQuotes st
    then splitRowFrom r (escapedQuote st)
    else splitRowFrom (d :: r) (scanChar c st).
Proof. reflexivity. Qed.

Lemma scanChar_length (c : char) (st : SplitState) :
  (List.length (result (scanChar c st))
   <= List.length (result st) + (if (c =? COMMA)%N then 1 else 0))%nat.
Proof.
  unfold scanChar. destruct (c =? QUOTE) eqn:Hq.
  - simpl. lia.
  - destruct (c =? COMMA); simpl; [|lia].
    destruct (inQuotes st); simpl; [lia|]. rewrite length_app. simpl. lia.
Qed.

Lemma commas_cons (c : char) (row : jstring) :
  commas (c :: row) = ((if (c =? COMMA)%N then 1 else 0) + commas row)%nat.
Proof.
  unfold commas. cbn [filter]. rewrite (N.eqb_sym COMMA c).
  destruct (c =? COMMA); reflexivity.
Qed.

Lemma splitRowFrom_length (row : jstring) :
  forall st,
    (List.length (result (splitRowFrom row st))
     <= List.length (result st) + commas row)%nat.
Proof.
  induction row as [|c|c d r IHr IHdr] using jstring_ind2; intros st.
  - simpl. lia.
  - simpl splitRowFrom. pose proof (scanChar_length c st) as H.
    rewrite commas_cons. change (commas []) with 0%nat. lia.
  - rewrite splitRowFrom_two.
    destruct ((c =? QUOTE) && (d =? QUOTE) && inQuotes st) eqn:E.
    + specialize (IHr (escapedQuote st)). simpl in IHr.
      rewrite !commas_cons. lia.
    + specialize (IHdr (scanChar c st)).
      pose proof (scanChar_length c st) as H.
      rewrite commas_cons. lia.
Qed.

Lemma splitRowFrom_no_quote (row : jstring) :
  forall st,
    inQuotes st = false -> forallb (fun c => negb (c =? QUOTE)) row = true ->
    List.length (result (splitRowFrom row st))
    = (List.length (result st) + commas row)%nat.
Proof.
  induction row as [|c row IH]; intros st Hq Hrow.
  - simpl. change (commas []) with 0%nat. lia.
  - simpl in Hrow. apply andb_true_iff in Hrow. destruct Hrow as [Hc Hrow].
    apply negb_true_iff in Hc.
    rewrite splitRowFrom_other by exact Hc.
    rewrite commas_cons.
    rewrite IH; [|unfold scanChar; rewrite Hc, Hq; now destruct (c =? COMMA)|exact Hrow].
    unfold scanChar. rewrite Hc, Hq.
    destruct (c =? COMMA); simpl; [|reflexivity].
    rewrite length_app. simpl. lia.
Qed.

(** X2: a row has at least one field and at most one more than it has
    commas; a row without a quote character has exactly one more. *)
Theorem X2_splitRow_field_count :
  forall row,
    (1 <= List.length (splitRow row) <= 1 + commas row)%nat /\
    (forallb (fun c => negb (c =? QUOTE)) row = true ->
     List.length (splitRow row) = (1 + commas row)%nat).
Proof.
  intros row. unfold splitRow. cbv zeta. rewrite length_app. simpl List.length.
  split.
  - pose proof (splitRowFrom_length row
                  {| result := []; cell := []; inQuotes := false |}) as H.
    simpl in H. lia.
  - intros Hrow.
    rewrite (splitRowFrom_no_quote row) by (reflexivity || exact Hrow).
    simpl. lia.
Qed.

Lemma X2_splitRow_field_count_witness :
  List.length (splitRow (js "a,,b ,c")) = 4%nat.
Proof. apply (proj2 (X2_splitRow_field_count (js "a,,b ,c"))). reflexivity. Defined.

Lemma splitRowFrom_trimmed (row : jstring) :
  forall st,
    Forall (fun c => trim c = c) (result st) ->
    Forall (fun c => trim c = c) (result (splitRowFrom row st)).
Proof.
  assert (Hscan : forall c st, Forall (fun c => trim c = c) (result st) ->
            Forall (fun c => trim c = c) (result (scanChar c st))).
  { intros c st H. unfold scanChar.
    destruct (c =? QUOTE); [exact H|].
    destruct ((c =? COMMA) && negb (inQuotes st)); [|exact H].
    simpl. apply Forall_app. split; [exact H|].
    constructor; [apply trim_idem | constructor]. }
  induction row as [|c|c d r IHr IHdr] using jstring_ind2; intros st H.
  - exact H.
  - simpl. now apply Hscan.
  - rewrite splitRowFrom_two.
    destruct ((c =? QUOTE) && (d =? QUOTE) && inQuotes st).
    + apply IHr. exact H.
    + apply IHdr. now apply Hscan.
Qed.

Lemma splitRow_trimmed (row : jstring) :
  Forall (fun c => trim c = c) (splitRow row).
Proof.
  unfold splitRow. cbv zeta. apply Forall_app. split.
  - apply splitRowFrom_trimmed. constructor.
  - constructor; [apply trim_idem | constructor].
Qed.

(** X3: no field that the tokenizer returns has white space at its start
    or at its end, also when the white space was written inside quotes:
    trimming a field again changes nothing. *)
Theorem X3_splitRow_fields_trimmed :
  forall row cell, In cell (splitRow row) -> trim cell = cell.
Proof.
  intros row c Hc. pose proof (splitRow_trimmed row) as H.
  rewrite Forall_forall in H. now apply H.
Qed.

Lemma X3_splitRow_fields_trimmed_witness :
  trim (js "b c") = js "b c".
Proof.
  apply (X3_splitRow_fields_trimmed (js "a," ++ [QUOTE] ++ js "  b c " ++ [QUOTE])).
  vm_compute. auto.
Defined.

(** ** Lines *)

Lemma hasLF_cons (c : char) (l : jstring) :
  hasLF (c :: l) = (c =? LF) || hasLF l.
Proof. unfold hasLF. cbn [existsb]. now rewrite (N.eqb_sym LF c). Qed.

Lemma splitLinesFrom_last (l cur : jstring) :
  hasLF l = false -> splitLinesFrom l cur = [cur ++ l].
Proof.
  revert cur. induction l as [|c l IH]; intros cur Hl.
  - simpl. now rewrite app_nil_r.
  - rewrite hasLF_cons in Hl. apply orb_false_iff in Hl. destruct Hl as [Hc Hl].
    cbn [splitLinesFrom]. rewrite Hc.
    assert (Hnext : splitLinesFrom l (cur ++ [c]) = [cur ++ c :: l]).
    { rewrite IH by exact Hl. now rewrite <- app_assoc. }
    destruct l as [|d l']; [exact Hnext|].
    rewrite hasLF_cons in Hl. apply orb_false_iff in Hl. destruct Hl as [Hd _].
    rewrite Hd, andb_false_r. exact Hnext.
Qed.

Lemma splitLinesFrom_LF (l rest cur : jstring) :
  isLine l = true ->
  splitLinesFrom (l ++ LF :: rest) cur = (cur ++ l) :: splitLinesFrom rest [].
Proof.
  unfold isLine, endsWithCR. rewrite andb_true_iff, !negb_true_iff.
  revert cur. induction l as [|c l IH]; intros cur [Hl Hcr].
  - simpl. now rewrite app_nil_r.
  - rewrite hasLF_cons in Hl. apply orb_false_iff in Hl. destruct Hl as [Hc Hl].
    change ((c :: l) ++ LF :: rest) with (c :: (l ++ LF :: rest)).
    cbn [splitLinesFrom]. rewrite Hc.
    destruct l as [|d l'].
    + cbn [last] in Hcr. cbn [app]. rewrite Hcr. cbn [andb].
      cbn [splitLinesFrom]. now rewrite (N.eqb_refl LF).
    + pose proof Hl as Hl0.
      rewrite hasLF_cons in Hl. apply orb_false_iff in Hl. destruct Hl as [Hd Hl'].
      change ((d :: l') ++ LF :: rest) with (d :: (l' ++ LF :: rest)).
      cbv iota. rewrite Hd, andb_false_r.
      change (d :: (l' ++ LF :: rest)) with ((d :: l') ++ LF :: rest).
      rewrite IH.
      * now rewrite <- app_assoc.
      * split; [exact Hl0 | exact Hcr].
Qed.

Lemma splitLinesFrom_CRLF (l rest cur : jstring) :
  hasLF l = false ->
  splitLinesFrom (l ++ CR :: LF :: rest) cur = (cur ++ l) :: splitLinesFrom rest [].
Proof.
  revert cur. induction l as [|c l IH]; intros cur Hl.
  - simpl. now rewrite app_nil_r.
  - rewrite hasLF_cons in Hl. apply orb_false_iff in Hl. destruct Hl as [Hc Hl].
    change ((c :: l) ++ CR :: LF :: rest) with (c :: (l ++ CR :: LF :: rest)).
    cbn [splitLinesFrom]. rewrite Hc.
    assert (Hnext : splitLinesFrom (l ++ CR :: LF :: rest) (cur ++ [c])
                    = (cur ++ c :: l) :: splitLinesFrom rest []).
    { rewrite IH by exact Hl. now rewrite <- app_assoc. }
    destruct l as [|d l'].
    + cbn [app] in *. cbv iota. change (CR =? LF) with false.
      rewrite andb_false_r. exact Hnext.
    + rewrite hasLF_cons in Hl. apply orb_false_iff in Hl. destruct Hl as [Hd _].
      change ((d :: l') ++ CR :: LF :: rest) with (d :: (l' ++ CR :: LF :: rest)) in *.
      cbv iota. rewrite Hd, andb_false_r. exact Hnext.
Qed.

Lemma joinWith_cons (sep l l2 : jstring) (ls : list jstring) :
  joinWith sep (l :: l2 :: ls) = l ++ sep ++ joinWith sep (l2 :: ls).
Proof. simpl. now rewrite <- app_assoc. Qed.

Lemma splitLines_joinLF (l : jstring) (ls : list jstring) :
  forallb isLine (l :: ls) = true -> splitLines (joinWith [LF] (l :: ls)) = l :: ls.
Proof.
  unfold splitLines. revert l. induction ls as [|l2 ls IH]; intros l Hls.
  - simpl in *. rewrite app_nil_r. apply splitLinesFrom_last.
    unfold isLine in Hls. rewrite andb_true_r in Hls.
    apply andb_true_iff in Hls. now apply negb_true_iff.
  - rewrite joinWith_cons. cbn [forallb] in Hls.
    apply andb_true_iff in Hls. destruct Hls as [Hl Hls].
    change ([LF] ++ joinWith [LF] (l2 :: ls)) with (LF :: joinWith [LF] (l2 :: ls)).
    rewrite splitLinesFrom_LF by exact Hl. simpl app. f_equal. now apply IH.
Qed.

Lemma splitLines_joinCRLF (l : jstring) (ls : list jstring) :
  forallb (fun x => negb (hasLF x)) (l :: ls) = true ->
  splitLines (joinWith [CR; LF] (l :: ls)) = l :: ls.
Proof.
  unfold splitLines. revert l. induction ls as [|l2 ls IH]; intros l Hls.
  - simpl in *. rewrite app_nil_r. apply splitLinesFrom_last.
    rewrite andb_true_r in Hls. now apply negb_true_iff.
  - rewrite joinWith_cons. cbn [forallb] in Hls.
    apply andb_true_iff in Hls. destruct Hls as [Hl Hls].
    change ([CR; LF] ++ joinWith [CR; LF] (l2 :: ls))
      with (CR :: LF :: joinWith [CR; LF] (l2 :: ls)).
    rewrite splitLinesFrom_CRLF by now apply negb_true_iff.
    simpl app. f_equal. now apply IH.
Qed.

(** X4: splitting is the inverse of joining.  For at least one line,
    none with a LF in it or a CR at its end, the lines joined with LF
    split into the same lines, and so do the lines joined with CR LF. *)
Theorem X4_splitLines_join :
  forall ls, ls <> [] -> forallb isLine ls = true ->
    splitLines (joinWith [LF] ls) = ls /\
    splitLines (joinWith [CR; LF] ls) = ls.
Proof.
  intros [|l ls] Hne Hls; [congruence|]. split.
  - now apply splitLines_joinLF.
  - apply splitLines_joinCRLF. rewrite forallb_forall in *.
    intros x Hx. specialize (Hls x Hx). unfold isLine in Hls.
    now apply andb_true_iff in Hls.
Qed.

Lemma X4_splitLines_join_witness :
  splitLines (joinWith [LF] [js "a,b"; []; [CR; 49]]) = [js "a,b"; []; [CR; 49]] /\
  splitLines (joinWith [CR; LF] [js "a,b"; []; [CR; 49]]) = [js "a,b"; []; [CR; 49]].
Proof. apply X4_splitLines_join; [discriminate | reflexivity]. Defined.

(** The test of the filter of [nonEmptyLines]. *)
Lemma keeps_not_blank (line : jstring) :
  (0 <? List.length (trim line))%nat = negb (isBlank line).
Proof.
  unfold isBlank. destruct (forallb isWhiteSpace line) eqn:E.
  - apply trim_nil in E. now rewrite E.
  - destruct (trim line) eqn:Et; [|reflexivity].
    apply trim_nil in Et. congruence.
Qed.

Lemma stripBOM_joinWith (sep l : jstring) (ls : list jstring) :
  match sep with c :: _ => (c =? BOM) = false | [] => False end ->
  stripBOM (joinWith sep (l :: ls)) = joinWith sep (stripBOM l :: ls).
Proof.
  intros Hsep. destruct l as [|c l].
  - destruct ls as [|l2 ls]; [reflexivity|].
    rewrite joinWith_cons. simpl app.
    destruct sep as [|s0 sep]; [contradiction|].
    simpl. rewrite Hsep. now rewrite <- app_assoc.
  - simpl. destruct (c =? BOM); reflexivity.
Qed.

Lemma isLine_stripBOM (l : jstring) : isLine l = true -> isLine (stripBOM l) = true.
Proof.
  destruct l as [|c l]; [auto|]. simpl. destruct (c =? BOM); [|auto].
  unfold isLine, endsWithCR. rewrite hasLF_cons.
  rewrite !andb_true_iff, !negb_true_iff, orb_false_iff.
  intros [[_ Hl] Hcr]. split; [exact Hl|].
  destruct l; [reflexivity | exact Hcr].
Qed.

Lemma nonEmptyLines_joinWith (sep l : jstring) (ls : list jstring) :
  sep = [LF] \/ sep = [CR; LF] ->
  forallb isLine (l :: ls) = true ->
  nonEmptyLines (joinWith sep (l :: ls))
  = filter (fun x => negb (isBlank x)) (stripBOM l :: ls).
Proof.
  intros Hsep Hls. unfold nonEmptyLines.
  rewrite stripBOM_joinWith by (destruct Hsep as [-> | ->]; reflexivity).
  assert (Hls' : forallb isLine (stripBOM l :: ls) = true).
  { cbn [forallb] in *. apply andb_true_iff in Hls. destruct Hls as [Hl Hls].
    now rewrite isLine_stripBOM, Hls. }
  assert (Hsplit : splitLines (joinWith sep (stripBOM l :: ls)) = stripBOM l :: ls).
  { destruct Hsep as [-> | ->].
    - now apply splitLines_joinLF.
    - apply splitLines_joinCRLF. rewrite forallb_forall in *.
      intros x Hx. specialize (Hls' x Hx). unfold isLine in Hls'.
      now apply andb_true_iff in Hls'. }
  rewrite Hsplit. apply filter_ext. intros x. apply keeps_not_blank.
Qed.

(** X5: of a text written as lines joined with LF, the parser sees the
    lines that are not blank (white space only), in their order, the
    first one without a byte-order mark at its start. *)
Theorem X5_nonEmptyLines_join :
  forall l ls, forallb isLine (l :: ls) = true ->
    nonEmptyLines (joinWith [LF] (l :: ls))
    = filter (fun x => negb (isBlank x)) (stripBOM l :: ls).
Proof. intros l ls. apply nonEmptyLines_joinWith. now left. Qed.

Lemma X5_nonEmptyLines_join_witness :
  nonEmptyLines (joinWith [LF] [BOM :: js "a"; js "  "; []; js "b"])
  = filter (fun x => negb (isBlank x)) [js "a"; js "  "; []; js "b"].
Proof. apply (X5_nonEmptyLines_join (BOM :: js "a")). reflexivity. Defined.

Lemma parseCSV_ext (t1 t2 : jstring) :
  nonEmptyLines t1 = nonEmptyLines t2 -> parseCSV t1 = parseCSV t2.
Proof.
  intros H. unfold parseCSV.
  change (filter _ (splitLines (stripBOM t1))) with (nonEmptyLines t1).
  change (filter _ (splitLines (stripBOM t2))) with (nonEmptyLines t2).
  now rewrite H.
Qed.

(** X6: line ends do not matter: the lines of a text joined with CR LF
    parse to the same result as the same lines joined with LF. *)
Theorem X6_parseCSV_line_ends :
  forall ls, forallb isLine ls = true ->
    parseCSV (joinWith [CR; LF] ls) = parseCSV (joinWith [LF] ls).
Proof.
  intros [|l ls] Hls; [reflexivity|]. apply parseCSV_ext.
  rewrite !nonEmptyLines_joinWith; auto.
Qed.

Lemma X6_parseCSV_line_ends_witness :
  parseCSV (joinWith [CR; LF] [js "Name,ID"; js "Jane,7"])
  = parseCSV (joinWith [LF] [js "Name,ID"; js "Jane,7"]).
Proof. apply X6_parseCSV_line_ends. reflexivity. Defined.

(** ** How many records *)

(** X7: of [n] non-empty lines, at most [n - 1] and at least [n - 10]
    become records: the header row is never a record, the lines above it
    are dropped, and the header is among the first ten lines.  A text of
    one non-empty line gives no record. *)
Theorem X7_record_count :
  forall text r, parseCSV text = Some r ->
    (List.length (nonEmptyLines text) - 10 <= List.length (members r)
     <= List.length (nonEmptyLines text) - 1)%nat.
Proof.
  intros text r Hr. destruct (nonEmptyLines text) as [|l0 rest] eqn:E.
  - rewrite (parseCSV_no_lines text E) in Hr. injection Hr as <-. simpl. lia.
  - assert (Hne : nonEmptyLines text <> []) by (rewrite E; discriminate).
    destruct (locateHeader_argmax rowScore _ Hne rowScore_nonneg)
      as (st & Hloc & Hwin & (headerLine & Hhdr & _) & _).
    rewrite (parseCSV_lines text st headerLine Hne Hloc Hhdr) in Hr.
    injection Hr as <-. cbn [members].
    rewrite length_map, length_skipn. rewrite E in *. lia.
Qed.

Lemma X7_record_count_witness :
  (List.length (nonEmptyLines (js "Name,ID")) - 10
   <= List.length (members {| members := []; sheetUpdateDate := js "Name" |})
   <= List.length (nonEmptyLines (js "Name,ID")) - 1)%nat.
Proof. apply (X7_record_count (js "Name,ID")). reflexivity. Defined.

(** ** Sheets without keywords *)

Lemma includes_refl (s : jstring) : includes s s = true.
Proof. apply includes_substring. exists [], []. now rewrite app_nil_r. Qed.

Lemma exactMatch_substringMatch (kList : list jstring) (h : jstring) :
  exactMatch kList h = true -> substringMatch kList h = true.
Proof.
  intros H. apply exactMatch_iff in H. destruct H as (k & Hk & ->).
  unfold substringMatch. apply existsb_exists. exists k.
  split; [exact Hk | apply includes_refl].
Qed.

Lemma keywords_allKeywords (f : Field) (k : jstring) :
  In k (keywords f) -> In k allKeywords.
Proof.
  intros Hk. unfold allKeywords. apply in_flat_map. exists f.
  split; [destruct f; simpl; tauto | exact Hk].
Qed.

(** A row of score 0 has no cell that contains a keyword. *)
Lemma rowScore_zero (line : jstring) (f : Field) (h : jstring) :
  rowScore line = 0%Z -> In h (map normalize (splitRow line)) ->
  substringMatch (keywords f) h = false.
Proof.
  unfold rowScore. intros Hscore Hh.
  destruct (filter _ allKeywords) as [|k0 ks] eqn:Ef; [|discriminate].
  destruct (substringMatch (keywords f) h) eqn:E; [|reflexivity].
  unfold substringMatch in E. apply existsb_exists in E. destruct E as (k & Hk & Hinc).
  assert (Hin : In k (filter (keywordInRow (map normalize (splitRow line))) allKeywords)).
  { apply filter_In. split.
    - exact (keywords_allKeywords f k Hk).
    - unfold keywordInRow. apply existsb_exists. exists h. split; assumption. }
  rewrite Ef in Hin. destruct Hin.
Qed.

Lemma indices_no_keyword (line : jstring) (f : Field) :
  rowScore line = 0%Z ->
  indices (map normalize (splitRow line)) f = positionalDefault f.
Proof.
  intros Hscore. rewrite indices_findColumn, findColumn_none; [reflexivity| |].
  - intros y Hy. destruct (exactMatch (keywords f) y) eqn:E; [|reflexivity].
    apply exactMatch_substringMatch in E.
    now rewrite (rowScore_zero line f y Hscore Hy) in E.
  - intros y Hy. now apply (rowScore_zero line).
Qed.

(** X8: a sheet in which no cell of the first ten non-empty lines
    contains a keyword is read by position: the first non-empty line is
    the header, every later non-empty line is a record whose name is its
    first cell and whose number is its second cell ([N/A] when the cell
    is missing or empty), and the other four fields have their
    defaults. *)
Theorem X8_positional_sheet :
  forall text l0 rest,
    nonEmptyLines text = l0 :: rest ->
    (forall j line, (j < 10)%nat -> nth_error (l0 :: rest) j = Some line ->
       rowScore line = 0%Z) ->
    parseCSV text =
      Some {| members :=
                map (fun line =>
                       {| accountName := orElse (nth_error (splitRow line) 0) (js "N/A");
                          accountNumber := orElse (nth_error (splitRow line) 1) (js "N/A");
                          nextDueDate := js "N/A";
                          nextDueAmount := js "0.00";
                          bps := js "0.00";
                          overdueAmount := js "0.00" |}) rest;
              sheetUpdateDate := orElse (nth_error (splitRow l0) 0) (js "N/A") |}.
Proof.
  intros text l0 rest E Hzero.
  assert (Hne : nonEmptyLines text <> []) by (rewrite E; discriminate).
  destruct (locateHeader_argmax rowScore _ Hne rowScore_nonneg)
    as (st & Hloc & Hwin & (headerLine & Hhdr & Hscore) & _ & Hfirst).
  assert (Hh : headerRowIndex st = 0%nat).
  { destruct (headerRowIndex st) as [|h] eqn:Eh; [reflexivity|]. exfalso.
    assert (H0 : (rowScore l0 < maxScore st)%Z).
    { apply (Hfirst 0%nat); [lia | now rewrite E]. }
    rewrite (Hzero 0%nat l0) in H0 by (reflexivity || lia).
    rewrite <- Hscore in H0. rewrite E in Hhdr.
    rewrite (Hzero (S h) headerLine) in H0 by (assumption || lia). lia. }
  rewrite (parseCSV_lines text st headerLine Hne Hloc Hhdr).
  rewrite Hh in *. rewrite E in *. simpl in Hhdr. injection Hhdr as <-.
  simpl skipn. simpl hd. f_equal. f_equal.
  apply map_ext. intros line. unfold buildRecord, fieldValue.
  rewrite !indices_no_keyword by (apply (Hzero 0%nat); [lia | reflexivity]).
  unfold getVal. simpl.
  destruct (splitRow line) as [|v0 [|v1 vs]]; simpl; try reflexivity;
    destruct v0; try destruct v1; reflexivity.
Qed.

Lemma X8_positional_sheet_witness :
  parseCSV (joinWith [LF] [js "Who,Code"; js "Jane,7,x"; js "Bob"]) =
    Some {| members :=
              map (fun line =>
                     {| accountName := orElse (nth_error (splitRow line) 0) (js "N/A");
                        accountNumber := orElse (nth_error (splitRow line) 1) (js "N/A");
                        nextDueDate := js "N/A";
                        nextDueAmount := js "0.00";
                        bps := js "0.00";
                        overdueAmount := js "0.00" |}) [js "Jane,7,x"; js "Bob"];
            sheetUpdateDate := orElse (nth_error (splitRow (js "Who,Code")) 0) (js "N/A") |}.
Proof.
  apply X8_positional_sheet; [reflexivity|].
  intros j line Hj Hline.
  destruct j as [|[|[|[|j]]]]; simpl in Hline; try discriminate;
    injection Hline as <-; reflexivity.
Defined.

(** ** Where a mapped column points *)

Lemma findIndexFrom_cases {A} (p : A -> bool) (a : list A) (n : Z) :
  (findIndexFrom p a n = (-1)%Z /\ forall x, In x a -> p x = false) \/
  (exists i x, nth_error a i = Some x /\ p x = true /\
               findIndexFrom p a n = (n + Z.of_nat i)%Z).
Proof.
  revert n. induction a as [|z a IH]; intros n; simpl.
  - left. split; [reflexivity | intros x []].
  - destruct (p z) eqn:Hz.
    + right. exists 0%nat, z. repeat split; [exact Hz | lia].
    + destruct (IH (n + 1)%Z) as [[Hnone Hall] | (i & x & Hi & Hx & Hres)].
      * left. split; [exact Hnone|]. intros x [<- | Hx]; auto.
      * right. exists (S i), x. repeat split; [exact Hi | exact Hx | lia].
Qed.

Lemma substringAt_of_match (f : Field) (rawHeaders : list jstring) (i : nat)
    (h : jstring) :
  nth_error (map normalize rawHeaders) i = Some h ->
  substringMatch (keywords f) h = true ->
  (i < List.length rawHeaders)%nat /\ substringAt f rawHeaders i.
Proof.
  intros Hi Hm. rewrite nth_error_map in Hi.
  destruct (nth_error rawHeaders i) as [cell|] eqn:Hc; [|discriminate].
  injection Hi as <-. split.
  - apply nth_error_Some. congruence.
  - apply substringMatch_iff in Hm. destruct Hm as (k & pre & post & Hk & Heq).
    exists cell, k, pre, post. now rewrite (keywords_normalize f k Hk).
Qed.

(** X9: a field is mapped either to a column of the header row whose
    normalized header contains a normalized keyword of the field, or,
    when no header does, to its positional default (0 for [accountName],
    1 for [accountNumber], -1 for the others), which need not be a
    column of the row. *)
Theorem X9_column_sound :
  forall (rawHeaders : list jstring) (f : Field),
    let i := indices (map normalize rawHeaders) f in
    ((0 <= i < Z.of_nat (List.length rawHeaders))%Z /\
     substringAt f rawHeaders (Z.to_nat i)) \/
    (i = positionalDefault f /\ forall j, ~ substringAt f rawHeaders j).
Proof.
  intros rawHeaders f. cbv zeta. rewrite indices_findColumn.
  unfold findColumn, findIndex.
  destruct (findIndexFrom_cases (exactMatch (keywords f)) (map normalize rawHeaders) 0)
    as [[Hnone Hall] | (i & h & Hi & Hh & Hres)].
  - rewrite Hnone. simpl negb. cbv iota.
    destruct (findIndexFrom_cases (substringMatch (keywords f))
                (map normalize rawHeaders) 0)
      as [[Hnone' Hall'] | (i & h & Hi & Hh & Hres)].
    + right. rewrite Hnone'. split; [reflexivity|].
      intros j Hj. apply substringAt_cell in Hj. destruct Hj as (cell & Hc & Hm).
      rewrite Hall' in Hm; [discriminate|].
      apply in_map. now apply nth_error_In in Hc.
    + left. rewrite Hres.
      destruct (Z.eqb_spec (0 + Z.of_nat i) (-1)); [lia|].
      destruct (substringAt_of_match f rawHeaders i h Hi Hh) as [Hlt Hsub].
      replace (Z.to_nat (0 + Z.of_nat i)) with i by lia. split; [lia | exact Hsub].
  - left. rewrite Hres.
    destruct (Z.eqb_spec (0 + Z.of_nat i) (-1)); [lia|]. simpl negb. cbv iota.
    destruct (Z.eqb_spec (0 + Z.of_nat i) (-1)); [lia|].
    apply exactMatch_substringMatch in Hh.
    destruct (substringAt_of_match f rawHeaders i h Hi Hh) as [Hlt Hsub].
    replace (Z.to_nat (0 + Z.of_nat i)) with i by lia. split; [lia | exact Hsub].
Qed.

(** ** Dates *)

Lemma isDigit_isNumeric (c : char) : isDigit c = true -> isNumeric c = true.
Proof. unfold isNumeric. now intros ->. Qed.

Lemma formatDate_eight (s : jstring) (y1 y2 y3 y4 m1 m2 d1 d2 : char) :
  s <> [] -> s <> js "N/A" -> forallb isWhiteSpace s = false ->
  digitsOnly s = [y1; y2; y3; y4; m1; m2; d1; d2] ->
  formatDate s = [m1; m2; 47; d1; d2; 47; y1; y2; y3; y4].
Proof.
  intros H1 H2 H3 Hd. unfold formatDate. rewrite formatDate_guard by assumption.
  unfold isEightDigits.
  rewrite (forallb_filter_same isDigit s : forallb _ (digitsOnly s) = true).
  rewrite Hd. reflexivity.
Qed.

Example formatDate_formatted : formatDate (js "06/15/2024") = js "20/24/0615".
Proof. vm_compute. reflexivity. Qed.

(** X10: [formatDate] never returns the empty string. *)
Theorem X10_formatDate_nonempty : forall s, formatDate s <> [].
Proof.
  intros s. unfold formatDate.
  destruct (jstring_eqb s [] || jstring_eqb s (js "N/A") || jstring_eqb (trim s) [])
    eqn:G; [discriminate|].
  destruct ((List.length (digitsOnly s) =? 8)%nat && isEightDigits (digitsOnly s)).
  - destruct (substring (digitsOnly s) 4 6); discriminate.
  - apply orb_false_iff in G. destruct G as [G _].
    apply orb_false_iff in G. destruct G as [G _].
    intros ->. discriminate.
Qed.

(** X11: [formatDate] is not idempotent.  On a string with exactly eight
    digits the result has the same digits with the last four moved to
    the front, so formatting a formatted date moves them again: the
    second result is the first two digits, [/], the next two, [/], and the
    last four.  A date already written MM/DD/YYYY is taken as YYYYMMDD
    (see [formatDate_formatted]). *)
Theorem X11_formatDate_twice :
  forall s y1 y2 y3 y4 m1 m2 d1 d2,
    s <> [] -> s <> js "N/A" -> forallb isWhiteSpace s = false ->
    digitsOnly s = [y1; y2; y3; y4; m1; m2; d1; d2] ->
    formatDate (formatDate s) = [y1; y2; 47; y3; y4; 47; m1; m2; d1; d2].
Proof.
  intros s y1 y2 y3 y4 m1 m2 d1 d2 H1 H2 H3 Hd.
  rewrite (formatDate_eight s y1 y2 y3 y4 m1 m2 d1 d2) by assumption.
  pose proof (forallb_filter_same isDigit s) as Hdig.
  change (filter isDigit s) with (digitsOnly s) in Hdig. rewrite Hd in Hdig.
  cbn [forallb] in Hdig. repeat rewrite andb_true_iff in Hdig.
  destruct Hdig as (Hy1 & Hy2 & Hy3 & Hy4 & Hm1 & Hm2 & Hd1 & Hd2 & _).
  apply formatDate_eight.
  - discriminate.
  - discriminate.
  - cbn [forallb]. now rewrite (isNumeric_not_space m1 (isDigit_isNumeric m1 Hm1)).
  - unfold digitsOnly. cbn [filter].
    rewrite Hy1, Hy2, Hy3, Hy4, Hm1, Hm2, Hd1, Hd2. reflexivity.
Qed.

Lemma X11_formatDate_twice_witness :
  formatDate (formatDate (js "06/15/2024")) = js "06/15/2024".
Proof.
  apply (X11_formatDate_twice (js "06/15/2024") 48 54 49 53 50 48 50 52);
    (discriminate || reflexivity).
Defined.

(** ** Amounts *)

Lemma isDigit_range (c : char) : isDigit c = true -> 48 <= c <= 57.
Proof. unfold isDigit. rewrite andb_true_iff, !N.leb_le. tauto. Qed.

Lemma span_digits (a rest : jstring) :
  forallb isDigit a = true ->
  match rest with c :: _ => isDigit c = false | [] => True end ->
  span isDigit (a ++ rest) = (a, rest).
Proof.
  intros Ha Hrest. induction a as [|c a IH]; simpl.
  - destruct rest as [|d rest]; [reflexivity|]. simpl. now rewrite Hrest.
  - simpl in Ha. apply andb_true_iff in Ha. destruct Ha as [Hc Ha].
    rewrite Hc, (IH Ha). reflexivity.
Qed.

Lemma endsNumber_head (rest : jstring) :
  endsNumber rest = true ->
  match rest with c :: _ => isDigit c = false | [] => True end.
Proof.
  destruct rest as [|c rest]; [trivial|]. simpl.
  rewrite orb_true_iff, !N.eqb_eq. intros [-> | ->]; reflexivity.
Qed.

Lemma readExponent_stop (rest : jstring) :
  endsNumber rest = true -> readExponent rest = None.
Proof.
  destruct rest as [|c rest]; [reflexivity|]. simpl.
  rewrite orb_true_iff, !N.eqb_eq. intros [-> | ->]; reflexivity.
Qed.

Lemma startsWith_Infinity (t : jstring) :
  match t with c :: _ => c <> 73 | [] => True end ->
  startsWith t (js "Infinity") = false.
Proof.
  destruct t as [|c t']; [reflexivity|]. intros Hc.
  change (startsWith (c :: t') (js "Infinity"))
    with ((73 =? c) && startsWith t' (js "nfinity")).
  replace (73 =? c) with false; [reflexivity|].
  symmetry. apply N.eqb_neq. congruence.
Qed.

Lemma readUnsigned_decimal (negative : bool) (a b rest : jstring) :
  forallb isDigit a = true -> forallb isDigit b = true ->
  a <> [] \/ b <> [] -> endsNumber rest = true ->
  readUnsigned negative (a ++ 46 :: b ++ rest)
  = Some (Decimal negative a b None).
Proof.
  intros Ha Hb Hne Hrest. unfold readUnsigned.
  rewrite startsWith_Infinity.
  2:{ destruct a as [|c a]; simpl; [discriminate|].
      simpl in Ha. apply andb_true_iff in Ha. destruct Ha as [Hc _].
      apply isDigit_range in Hc. lia. }
  rewrite (span_digits a (46 :: b ++ rest) Ha) by reflexivity.
  assert (Hspan : span isDigit (b ++ rest) = (b, rest))
    by (apply span_digits; [exact Hb | now apply endsNumber_head]).
  destruct a as [|c a].
  - change (46 =? 46) with true. cbv iota. rewrite Hspan.
    destruct b as [|d b]; [destruct Hne; congruence|].
    now rewrite readExponent_stop.
  - change (46 =? 46) with true. cbv iota. rewrite Hspan.
    now rewrite readExponent_stop.
Qed.

Lemma readUnsigned_integer (negative : bool) (a rest : jstring) :
  forallb isDigit a = true -> a <> [] ->
  match rest with c :: _ => c = 45 | [] => True end ->
  readUnsigned negative (a ++ rest) = Some (Decimal negative a [] None).
Proof.
  intros Ha Hne Hrest. unfold readUnsigned.
  rewrite startsWith_Infinity.
  2:{ destruct a as [|c a]; [congruence|]. simpl.
      simpl in Ha. apply andb_true_iff in Ha. destruct Ha as [Hc _].
      apply isDigit_range in Hc. lia. }
  rewrite (span_digits a rest Ha)
    by (destruct rest as [|d rest]; [exact I | now subst d]).
  destruct a as [|c a]; [congruence|].
  destruct rest as [|d rest]; [reflexivity|]. subst d. reflexivity.
Qed.

(** After the sign, [parseFloat] reads an unsigned literal. *)
Lemma parseFloat_signed (negative : bool) (body : jstring) :
  match body with c :: _ => isDigit c = true \/ c = 46 | [] => False end ->
  parseFloat (signOf negative ++ body) = readUnsigned negative body.
Proof.
  intros Hbody. unfold parseFloat. destruct negative; [reflexivity|].
  destruct body as [|c t]; [contradiction|]. simpl signOf. simpl app.
  assert (Hnum : isNumeric c = true).
  { unfold isNumeric. destruct Hbody as [-> | ->]; reflexivity. }
  cbn [trimStart]. rewrite (isNumeric_not_space c Hnum).
  assert (Hc : 48 <= c <= 57 \/ c = 46)
    by (destruct Hbody as [H | H]; [left; now apply isDigit_range | now right]).
  replace (c =? 45) with false by (symmetry; apply N.eqb_neq; lia).
  replace (c =? 43) with false by (symmetry; apply N.eqb_neq; lia).
  reflexivity.
Qed.

(** X12: of an amount only the first number is used.  When the digits,
    points and minus signs of the amount are an optional minus sign,
    digits [a], a point and digits [b] (not both empty), and then
    nothing or something that starts with a point or a minus sign,
    [formatPeso] formats the number [a.b] with that sign and ignores the
    rest; without the point, and with a minus sign or nothing after the
    digits, it formats the integer [a].  So [1.234.567] is formatted as
    1.234 and [100-200] as 100. *)
Theorem X12_formatPeso_first_number :
  forall numberFormat amount negative a b rest,
    forallb isDigit a = true -> forallb isDigit b = true ->
    (stripNonNumeric amount = signOf negative ++ a ++ 46 :: b ++ rest ->
     a <> [] \/ b <> [] -> endsNumber rest = true ->
     formatPeso numberFormat amount
     = PESO :: numberFormat (Decimal negative a b None)) /\
    (stripNonNumeric amount = signOf negative ++ a ++ rest ->
     a <> [] -> match rest with c :: _ => c = 45 | [] => True end ->
     formatPeso numberFormat amount
     = PESO :: numberFormat (Decimal negative a [] None)).
Proof.
  intros numberFormat amount negative a b rest Ha Hb. split.
  - intros Hs Hne Hrest. unfold formatPeso. rewrite Hs.
    rewrite parseFloat_signed.
    + now rewrite readUnsigned_decimal.
    + destruct a as [|c a]; [now right|]. left.
      simpl in Ha. now apply andb_true_iff in Ha.
  - intros Hs Hne Hrest. unfold formatPeso. rewrite Hs.
    rewrite parseFloat_signed.
    + now rewrite readUnsigned_integer.
    + destruct a as [|c a]; [congruence|]. left.
      simpl in Ha. now apply andb_true_iff in Ha.
Qed.

Lemma X12_formatPeso_first_number_witness :
  formatPeso (fun _ => js "1.23") (js "PHP 1.234.567")
    = PESO :: js "1.23" /\
  formatPeso (fun _ => js "100.00") (js "100-200") = PESO :: js "100.00".
Proof.
  split.
  - apply (proj1 (X12_formatPeso_first_number (fun _ => js "1.23")
                   (js "PHP 1.234.567") false (js "1") (js "234") (js ".567")
                   eq_refl eq_refl));
      [reflexivity | left; discriminate | reflexivity].
  - apply (proj2 (X12_formatPeso_first_number (fun _ => js "100.00")
                   (js "100-200") false (js "100") [] (js "-200")
                   eq_refl eq_refl));
      [reflexivity | discriminate | reflexivity].
Defined.

(** ** Search *)

Lemma memberMatches_iff (lowerCase : jstring -> jstring) (query : jstring)
    (m : Member) :
  memberMatches lowerCase query m = true <-> MatchesQuery lowerCase query m.
Proof.
  unfold memberMatches, MatchesQuery.
  rewrite !orb_true_iff, andb_true_iff, !includes_substring, Nat.ltb_lt.
  assert (Hlen : (0 < List.length (digitsOnly query))%nat <-> digitsOnly query <> []).
  { destruct (digitsOnly query); simpl; split; (congruence || lia). }
  rewrite Hlen. tauto.
Qed.

Lemma In_firstn {A} (n : nat) (l : list A) (x : A) : In x (firstn n l) -> In x l.
Proof.
  intros H. rewrite <- (firstn_skipn n l). apply in_or_app. now left.
Qed.

(** X13: a query that is empty or white space only finds nothing, for
    any [toLowerCase] that keeps the empty string empty. *)
Theorem X13_search_blank :
  forall lowerCase data searchQuery,
    lowerCase [] = [] -> forallb isWhiteSpace searchQuery = true ->
    filteredMembers lowerCase data searchQuery = [].
Proof.
  intros lowerCase data q Hlow Hq. unfold filteredMembers.
  apply trim_nil in Hq. now rewrite Hq, Hlow.
Qed.

Lemma X13_search_blank_witness :
  filteredMembers toLowerCase [janeDoe] (js "  ") = [].
Proof. apply X13_search_blank; reflexivity. Defined.

(** X14: a search returns at most 50 records; each of them is a record
    of the data that matches the trimmed, lower-case query; and when at
    most 50 records of the data match a query that is not blank, every
    matching record is returned. *)
Theorem X14_search_results :
  forall lowerCase data searchQuery,
    let query := lowerCase (trim searchQuery) in
    let found := filteredMembers lowerCase data searchQuery in
    (List.length found <= 50)%nat /\
    (forall m, In m found -> In m data /\ MatchesQuery lowerCase query m) /\
    (query <> [] ->
     (List.length (filter (memberMatches lowerCase query) data) <= 50)%nat ->
     forall m, In m data -> MatchesQuery lowerCase query m -> In m found).
Proof.
  intros lowerCase data q query found. subst found. unfold filteredMembers.
  fold query. destruct query as [|c query'] eqn:Eq.
  - split; [simpl; lia|]. split; [intros m []|]. congruence.
  - rewrite <- Eq. split; [rewrite length_firstn; lia|]. split.
    + intros m Hm. apply In_firstn in Hm. apply filter_In in Hm.
      destruct Hm as [Hin Hm]. split; [exact Hin|]. now apply memberMatches_iff.
    + intros _ Hlen m Hin Hm. rewrite firstn_all2 by exact Hlen.
      apply filter_In. split; [exact Hin|]. now apply memberMatches_iff.
Qed.

Lemma X14_search_results_witness :
  In janeDoe (filteredMembers toLowerCase [janeDoe] (js " JANE ")).
Proof.
  apply (proj2 (proj2 (X14_search_results toLowerCase [janeDoe] (js " JANE ")))).
  - discriminate.
  - vm_compute. lia.
  - now left.
  - left. exists [], (js " doe"). reflexivity.
Defined.

(** X15: white space before and after the query does not change what
    is found. *)
Theorem X15_search_trim :
  forall lowerCase data ws1 searchQuery ws2,
    forallb isWhiteSpace ws1 = true -> forallb isWhiteSpace ws2 = true ->
    filteredMembers lowerCase data (ws1 ++ searchQuery ++ ws2)
    = filteredMembers lowerCase data searchQuery.
Proof.
  intros lowerCase data ws1 q ws2 H1 H2. unfold filteredMembers.
  now rewrite trim_around.
Qed.

Lemma X15_search_trim_witness :
  filteredMembers toLowerCase [janeDoe] (js "  " ++ js "1001" ++ [9; 160])
  = filteredMembers toLowerCase [janeDoe] (js "1001").
Proof. apply X15_search_trim; reflexivity. Defined.

Lemma isWhiteSpace_not_digit (c : char) : isWhiteSpace c = true -> isDigit c = false.
Proof.
  intros Hw. destruct (isDigit c) eqn:Hd; [|reflexivity].
  rewrite (isNumeric_not_space c (isDigit_isNumeric c Hd)) in Hw. discriminate.
Qed.

Lemma digitsOnly_space (ws : jstring) :
  forallb isWhiteSpace ws = true -> digitsOnly ws = [].
Proof.
  induction ws as [|c ws IH]; simpl; [reflexivity|].
  rewrite andb_true_iff. intros [Hc Hws].
  now rewrite (isWhiteSpace_not_digit c Hc), IH.
Qed.

(** Trimming removes no digit. *)
Lemma digitsOnly_trim (s : jstring) : digitsOnly (trim s) = digitsOnly s.
Proof.
  unfold trim, trimEnd.
  destruct (trimStart_split s) as (ws1 & Hws1 & Hs).
  destruct (trimStart_split (rev (trimStart s))) as (ws2 & Hws2 & Hr).
  apply (f_equal (@rev _)) in Hr. rewrite rev_involutive, rev_app_distr in Hr.
  rewrite Hs at 2. rewrite Hr at 2. unfold digitsOnly.
  rewrite !filter_app.
  change (filter isDigit ws1) with (digitsOnly ws1).
  change (filter isDigit (rev ws2)) with (digitsOnly (rev ws2)).
  rewrite (digitsOnly_space ws1 Hws1).
  rewrite (digitsOnly_space (rev ws2)) by now rewrite forallb_rev.
  now rewrite app_nil_r.
Qed.

(** X16: a query with digits finds every record whose account number
    has the digits of the query in a row among its own digits, whatever
    else the query and the number contain, for any [toLowerCase] that
    leaves the digits of a string as they are: when at most 50 records
    match, such a record is among those returned. *)
Theorem X16_search_digits :
  forall lowerCase data searchQuery m,
    (forall s, digitsOnly (lowerCase s) = digitsOnly s) ->
    digitsOnly searchQuery <> [] ->
    (exists pre post,
       digitsOnly (accountNumber m) = pre ++ digitsOnly searchQuery ++ post) ->
    In m data ->
    (List.length
       (filter (memberMatches lowerCase (lowerCase (trim searchQuery))) data)
     <= 50)%nat ->
    In m (filteredMembers lowerCase data searchQuery).
Proof.
  intros lowerCase data q m Hlow Hq (pre & post & Hnum) Hin Hlen.
  assert (Hdig : digitsOnly (lowerCase (trim q)) = digitsOnly q)
    by now rewrite Hlow, digitsOnly_trim.
  unfold filteredMembers.
  destruct (lowerCase (trim q)) as [|c query'] eqn:Eq.
  - simpl in Hdig. congruence.
  - rewrite firstn_all2 by exact Hlen. apply filter_In. split; [exact Hin|].
    apply memberMatches_iff. right. right. rewrite Hdig, Hlow.
    split; [exact Hq|]. now exists pre, post.
Qed.

Lemma digitsOnly_toLowerCase (s : jstring) :
  digitsOnly (toLowerCase s) = digitsOnly s.
Proof.
  unfold toLowerCase, digitsOnly. induction s as [|c s IH]; [reflexivity|].
  cbn [flat_map filter]. rewrite filter_app, IH. f_equal.
  unfold lowerUnit. destruct (isUpper c) eqn:Hu.
  - unfold isUpper in Hu. apply andb_true_iff in Hu. rewrite !N.leb_le in Hu.
    cbn [filter app]. unfold isDigit.
    replace (c + 32 <=? 57) with false by (symmetry; apply N.leb_gt; lia).
    replace (c <=? 57) with false by (symmetry; apply N.leb_gt; lia).
    now rewrite !andb_false_r.
  - destruct (N.eqb_spec c 304) as [->|_]; [reflexivity|].
    destruct (N.eqb_spec c 8490) as [->|_]; [reflexivity|].
    cbn [filter app]. now destruct (isDigit c).
Qed.

Lemma X16_search_digits_witness :
  In janeDoe (filteredMembers toLowerCase [janeDoe] (js "acct 10-01")).
Proof.
  apply X16_search_digits.
  - exact digitsOnly_toLowerCase.
  - discriminate.
  - exists [], []. reflexivity.
  - now left.
  - vm_compute. lia.
Defined.

(** ** A quote that is not closed *)

Lemma splitRowFrom_inside (f : jstring) (res : list jstring) (cel : jstring) :
  forallb (fun c => negb (c =? QUOTE)) f = true ->
  splitRowFrom f {| result := res; cell := cel; inQuotes := true |}
  = {| result := res; cell := cel ++ f; inQuotes := true |}.
Proof.
  revert cel. induction f as [|c f IH]; intros cel Hf.
  - simpl. now rewrite app_nil_r.
  - simpl in Hf. apply andb_true_iff in Hf. destruct Hf as [Hc Hf].
    apply negb_true_iff in Hc. rewrite splitRowFrom_other by exact Hc.
    unfold scanChar. rewrite Hc. simpl. rewrite andb_false_r.
    rewrite IH by exact Hf. now rewrite <- app_assoc.
Qed.

(** X17: a quote that is never closed is no error: after the fields
    before it, all that follows the quote, commas included, is one last
    field. *)
Theorem X17_splitRow_open_quote :
  forall fields f,
    forallb (fun c => negb (c =? QUOTE)) f = true ->
    splitRow (flat_map (fun x => csvField x ++ [COMMA]) fields ++ QUOTE :: f)
    = map trim fields ++ [trim f].
Proof.
  intros fields f Hf. unfold splitRow.
  enough (H : forall res,
            splitRowFrom (flat_map (fun x => csvField x ++ [COMMA]) fields ++ QUOTE :: f)
              {| result := res; cell := []; inQuotes := false |}
            = {| result := res ++ map trim fields; cell := f; inQuotes := true |}).
  { rewrite H. reflexivity. }
  induction fields as [|g gs IH]; intros res.
  - simpl flat_map. simpl app. rewrite splitRowFrom_open by reflexivity.
    unfold scanChar. simpl. rewrite splitRowFrom_inside by exact Hf.
    now rewrite app_nil_r.
  - cbn [flat_map map]. rewrite <- !app_assoc.
    rewrite splitRowFrom_csvField by reflexivity.
    simpl app. rewrite splitRowFrom_comma, IH. now rewrite <- app_assoc.
Qed.

Lemma X17_splitRow_open_quote_witness :
  splitRow (flat_map (fun x => csvField x ++ [COMMA]) [js "a"] ++ QUOTE :: js "b, c")
  = map trim [js "a"] ++ [trim (js "b, c")].
Proof. apply X17_splitRow_open_quote. reflexivity. Defined.

(** ** Parsed records *)

Lemma fieldDefault_trimmed (f : Field) : trim (fieldDefault f) = fieldDefault f.
Proof. destruct f; vm_compute; reflexivity. Qed.

Lemma fieldValue_trimmed (idx : Field -> Z) (line : jstring) (f : Field) :
  trim (fieldValue idx (splitRow line) f) = fieldValue idx (splitRow line) f.
Proof.
  unfold fieldValue, orElse, getVal.
  destruct (idx f >=? 0)%Z; [|apply fieldDefault_trimmed].
  destruct (nth_error (splitRow line) (Z.to_nat (idx f))) as [v|] eqn:Hv;
    [|apply fieldDefault_trimmed].
  destruct v as [|c v]; [apply fieldDefault_trimmed|].
  pose proof (splitRow_trimmed line) as H. rewrite Forall_forall in H.
  apply H. now apply nth_error_In in Hv.
Qed.

Lemma parsed_field (text : jstring) (r : ParseResult) (m : Member) :
  parseCSV text = Some r -> In m (members r) ->
  exists idx line, forall f, field f m = fieldValue idx (splitRow line) f.
Proof.
  intros Hr Hm. destruct (nonEmptyLines text) as [|line0 rest] eqn:E.
  - rewrite (parseCSV_no_lines text E) in Hr. injection Hr as <-. destruct Hm.
  - destruct (parseCSV_shape text) as (st & headerLine & _ & _ & H).
    + rewrite E. discriminate.
    + rewrite H in Hr. injection Hr as <-. simpl in Hm.
      apply in_map_iff in Hm. destruct Hm as (line & <- & _).
      eexists. exists line. intros f. apply field_buildRecord.
Qed.

(** X18: every field of every record that [parseCSV] returns is trimmed:
    it has no white space at its start or at its end. *)
Theorem X18_parsed_fields_trimmed :
  forall text r m f,
    parseCSV text = Some r -> In m (members r) -> trim (field f m) = field f m.
Proof.
  intros text r m f Hr Hm.
  destruct (parsed_field text r m Hr Hm) as (idx & line & H).
  rewrite H. apply fieldValue_trimmed.
Qed.

Lemma X18_parsed_fields_trimmed_witness :
  trim (field AccountName janeDoe) = field AccountName janeDoe.
Proof.
  exact (X18_parsed_fields_trimmed sampleText
           {| members := [janeDoe]; sheetUpdateDate := js "2024-05-01 Export" |}
           janeDoe AccountName eq_refl (or_introl eq_refl)).
Defined.

(** X19: a parsed record is found again by its own name and by its own
    number: for any [toLowerCase] that makes only the empty string
    empty, searching the parsed records for the account name of one of
    them, or for its account number, returns that record whenever at
    most 50 records match. *)
Theorem X19_parsed_record_found :
  forall lowerCase text r m f,
    (forall s, lowerCase s = [] -> s = []) ->
    parseCSV text = Some r -> In m (members r) ->
    f = AccountName \/ f = AccountNumber ->
    (List.length
       (filter (memberMatches lowerCase (lowerCase (field f m))) (members r))
     <= 50)%nat ->
    In m (filteredMembers lowerCase (members r) (field f m)).
Proof.
  intros lowerCase text r m f Hlow Hr Hm Hf Hlen.
  destruct (parsed_field text r m Hr Hm) as (idx & line & H).
  assert (Htrim : trim (field f m) = field f m)
    by (rewrite H; apply fieldValue_trimmed).
  assert (Hne : field f m <> [])
    by (rewrite H; apply fieldValue_nonempty).
  unfold filteredMembers. rewrite Htrim.
  destruct (lowerCase (field f m)) as [|c q] eqn:Eq.
  - now apply Hlow in Eq.
  - rewrite firstn_all2 by exact Hlen. apply filter_In. split; [exact Hm|].
    apply memberMatches_iff. rewrite <- Eq.
    destruct Hf as [-> | ->]; [left | right; left];
      exists [], []; simpl; now rewrite app_nil_r.
Qed.

Lemma toLowerCase_nil (s : jstring) : toLowerCase s = [] -> s = [].
Proof.
  destruct s as [|c s]; [reflexivity|]. unfold toLowerCase. cbn [flat_map].
  unfold lowerUnit.
  destruct (isUpper c); [discriminate|].
  destruct (c =? 304); [discriminate|].
  destruct (c =? 8490); discriminate.
Qed.

Lemma X19_parsed_record_found_witness :
  In janeDoe (filteredMembers toLowerCase [janeDoe] (js "1001")).
Proof.
  apply (X19_parsed_record_found toLowerCase sampleText
           {| members := [janeDoe]; sheetUpdateDate := js "2024-05-01 Export" |}
           janeDoe AccountNumber).
  - exact toLowerCase_nil.
  - reflexivity.
  - now left.
  - now right.
  - vm_compute. lia.
Defined.

(** ** Normalization *)

Lemma normalize_app (a b : jstring) :
  normalize (a ++ b) = normalize a ++ normalize b.
Proof.
  unfold normalize, stripNonAlnum, toLowerCase.
  now rewrite flat_map_app, filter_app.
Qed.

Lemma normalize_alnum (t : jstring) :
  forallb (fun c => isLower c || isDigit c) t = true -> normalize t = t.
Proof.
  induction t as [|c t IH]; [reflexivity|]. intros Ht.
  cbn [forallb] in Ht. apply andb_true_iff in Ht. destruct Ht as [Hc Ht].
  change (c :: t) with ([c] ++ t) at 1. rewrite normalize_app, (IH Ht).
  enough (H : normalize [c] = [c]) by now rewrite H.
  unfold normalize, toLowerCase, stripNonAlnum. cbn [flat_map]. rewrite app_nil_r.
  assert (Hrange : 97 <= c <= 122 \/ 48 <= c <= 57).
  { unfold isLower, isDigit in Hc.
    rewrite orb_true_iff, !andb_true_iff, !N.leb_le in Hc. lia. }
  unfold lowerUnit.
  replace (isUpper c) with false.
  2:{ symmetry. unfold isUpper. apply andb_false_iff.
      destruct Hrange; [right | left]; apply N.leb_gt; lia. }
  replace (c =? 304) with false by (symmetry; apply N.eqb_neq; lia).
  replace (c =? 8490) with false by (symmetry; apply N.eqb_neq; lia).
  cbn [filter]. now rewrite Hc.
Qed.

(** X20: normalization gives a canonical form.  The normalization of a
    string has only the characters a-z and 0-9 and is its own
    normalization; normalization goes through concatenation; so a
    character outside A-Z, a-z and 0-9 (other than U+0130 and U+212A,
    whose lower case has a letter) can be put anywhere in a header cell,
    and a capital letter of ASCII be replaced by its small letter,
    without a change of the normalization. *)
Theorem X20_normalize_canonical :
  (forall s, forallb (fun c => isLower c || isDigit c) (normalize s) = true) /\
  (forall s, normalize (normalize s) = normalize s) /\
  (forall a b, normalize (a ++ b) = normalize a ++ normalize b) /\
  (forall a c b,
     isUpper c = false -> isLower c = false -> isDigit c = false ->
     c <> 304 -> c <> 8490 ->
     normalize (a ++ c :: b) = normalize (a ++ b)) /\
  (forall a c b, isUpper c = true ->
     normalize (a ++ c :: b) = normalize (a ++ (c + 32) :: b)).
Proof.
  assert (Halnum : forall s,
            forallb (fun c => isLower c || isDigit c) (normalize s) = true).
  { intros s. apply forallb_filter_same. }
  split; [exact Halnum|]. split; [|split; [exact normalize_app|split]].
  - intros s. apply normalize_alnum, Halnum.
  - intros a c b Hu Hl Hd H304 H8490.
    change (c :: b) with ([c] ++ b). rewrite !normalize_app.
    enough (H : normalize [c] = []) by now rewrite H.
    unfold normalize, toLowerCase, stripNonAlnum, lowerUnit. cbn [flat_map].
    rewrite Hu. apply N.eqb_neq in H304, H8490. rewrite H304, H8490.
    cbn [app filter]. now rewrite Hl, Hd.
  - intros a c b Hu.
    change (c :: b) with ([c] ++ b).
    change ((c + 32) :: b) with ([c + 32] ++ b). rewrite !normalize_app.
    enough (H : normalize [c] = normalize [c + 32]) by now rewrite H.
    unfold normalize, toLowerCase, stripNonAlnum, lowerUnit. cbn [flat_map].
    rewrite Hu. unfold isUpper in *. apply andb_true_iff in Hu.
    rewrite !N.leb_le in Hu.
    replace ((65 <=? c + 32) && (c + 32 <=? 90)) with false.
    2:{ symmetry. apply andb_false_iff. right. apply N.leb_gt. lia. }
    replace (c + 32 =? 304) with false by (symmetry; apply N.eqb_neq; lia).
    replace (c + 32 =? 8490) with false by (symmetry; apply N.eqb_neq; lia).
    reflexivity.
Qed.

Lemma X20_normalize_canonical_witness :
  normalize (js "Due" ++ 95 :: js "Date") = normalize (js "Due" ++ js "Date") /\
  normalize (js "due " ++ 68 :: js "ate") = normalize (js "due " ++ (68 + 32) :: js "ate").
Proof.
  split.
  - apply (proj1 (proj2 (proj2 (proj2 X20_normalize_canonical))));
      (reflexivity || discriminate).
  - apply (proj2 (proj2 (proj2 (proj2 X20_normalize_canonical)))). reflexivity.
Defined.
